(** * routes/api.js: the picture and category API

    A shallow embedding of the route handlers of [routes/api.js] and of the
    helpers they call, with the two resources they mutate made explicit:
    the record store (the [Category] and [Picture] collections) and the
    upload directory on disk.

    Conventions of the embedding.
    - A JavaScript string is a [string]; [trim] and [toLowerCase] act on the
      ASCII range, bytes above 127 are left as they are.
    - A field of [req.body] or [req.file] that may be [undefined] is an
      [option].
    - A collection is the list of its documents in insertion order; [_id] is
      the key the store keeps unique.
    - The disk is the list of the paths that exist.  [path.join] is string
      concatenation: the handlers only join the upload directory with a file
      name, and the public directory with a URL that starts with a slash.
    - Everything a handler does not compute itself is an explicit input: the
      clock, the generated object id, whether [save] reaches the store, the
      draw of [getRandomInt] and the choice made by the [$sample] stage.
    - A query by [_id] is rejected by the store when its string does not
      cast to an [_id]; which strings cast is decided by the schema, which
      is not among the sources, and is a parameter ([casts]).  A string
      under which the collection holds a document casts: the store cast it
      when the document was saved.  The handlers' branches for such a
      rejection are embedded in [createPicture], [updatePicture],
      [deleteCategory] and [deletePictureRoute]; other failures of the store
      are not modelled,
      except that of [save].  The route parameter [limit] is the integer
      [parseInt] read.
    - The callbacks of one request are run in the order in which the handler
      issues them; promises that the handler joins act on different
      documents and paths. *)

From Stdlib Require Import List String Ascii Bool ZArith QArith Qround Lia Permutation.
Import ListNotations.

Local Open Scope list_scope.
Local Open Scope string_scope.
Local Open Scope Z_scope.

(** ** JavaScript values used by the handlers *)

(** An [Error] object; only its constructor and message are observed. *)
Inductive exn : Type :=
| TypeError (message : string)
| Error (message : string).

Definition message (e : exn) : string :=
  match e with
  | TypeError m => m
  | Error m => m
  end.

(** A computation that returns or throws synchronously. *)
Definition throws (A : Type) : Type := (exn + A)%type.

Definition ret {A : Type} (a : A) : throws A := inr a.
Definition throw {A : Type} (e : exn) : throws A := inl e.

Definition bind {A B : Type} (m : throws A) (k : A -> throws B) : throws B :=
  match m with
  | inl e => inl e
  | inr a => k a
  end.

Declare Scope throws_scope.
Delimit Scope throws_scope with throws.
Notation "x <- m ;; k" := (bind m (fun x => k))
  (at level 100, m at next level, right associativity) : throws_scope.

(** *** Strings *)

Definition isWhiteSpace (c : ascii) : bool :=
  let n := nat_of_ascii c in
  ((9 <=? n) && (n <=? 13))%nat || (n =? 32)%nat.

Definition lowerChar (c : ascii) : ascii :=
  let n := nat_of_ascii c in
  if ((65 <=? n) && (n <=? 90))%nat then ascii_of_nat (n + 32) else c.

Definition isUpper (c : ascii) : bool :=
  let n := nat_of_ascii c in
  ((65 <=? n) && (n <=? 90))%nat.

(** [String.prototype.toLowerCase] *)
Fixpoint toLowerCase (s : string) : string :=
  match s with
  | EmptyString => EmptyString
  | String c s' => String (lowerChar c) (toLowerCase s')
  end.

Fixpoint trimStart (s : string) : string :=
  match s with
  | EmptyString => EmptyString
  | String c s' => if isWhiteSpace c then trimStart s' else s
  end.

Fixpoint trimEnd (s : string) : string :=
  match s with
  | EmptyString => EmptyString
  | String c s' =>
      match trimEnd s' with
      | EmptyString => if isWhiteSpace c then EmptyString else String c EmptyString
      | t => String c t
      end
  end.

(** [String.prototype.trim] *)
Definition trim (s : string) : string := trimEnd (trimStart s).

(** [String.prototype.split] with a one-character separator: the pieces
    between the separators, empty pieces included; the empty string splits
    into one empty piece. *)
Fixpoint split (sep : ascii) (s : string) : list string :=
  match s with
  | EmptyString => [EmptyString]
  | String c s' =>
      if Ascii.eqb c sep then EmptyString :: split sep s'
      else match split sep s' with
           | piece :: pieces => String c piece :: pieces
           | [] => [String c EmptyString]
           end
  end.

(** Number of occurrences of a character. *)
Fixpoint occurrences (sep : ascii) (s : string) : nat :=
  match s with
  | EmptyString => O
  | String c s' => if Ascii.eqb c sep then S (occurrences sep s') else occurrences sep s'
  end.

(** [!x] for a string field that may be undefined: undefined and the empty
    string are falsy. *)
Definition falsy (x : option string) : bool :=
  match x with
  | None => true
  | Some EmptyString => true
  | Some _ => false
  end.

(** ** Helpers of the module *)

(** [getExtension(path)] *)
Definition getExtension (path : string) : throws string :=
  let parts := split "." path in
  if (List.length parts =? 1)%nat then throw (Error "Unknown file type!")
  else ret (last parts EmptyString).

(** [parseMatches(matchesString)] on a string. *)
Definition parseMatches (matchesString : string) : list string :=
  map (fun x => toLowerCase (trim x)) (split "," matchesString).

(** [parseMatches(matches)] as the handlers call it, on the raw body field:
    [undefined.split] is a [TypeError]. *)
Definition parseMatches_field (matches : option string) : throws (list string) :=
  match matches with
  | None => throw (TypeError "Cannot read property 'split' of undefined")
  | Some s => ret (parseMatches s)
  end.

(** ** Data model *)

(** A document of the [Category] collection. *)
Module Category.
Record t : Type := mk {
  _id : string;
  title : option string;
  imageUrl : string;
  dateAdded : Z
}.
End Category.

(** A document of the [Picture] collection. *)
Module Picture.
Record t : Type := mk {
  _id : string;
  categoryId : string;
  matches : list string;
  imageUrl : string;
  dateAdded : Z
}.
End Picture.

(** [req.file] as multer fills it in: the generated name under which the
    upload was staged in the upload directory, and the name the client
    declared. *)
Record File : Type := mkFile {
  filename : string;
  originalname : string
}.

(** The two resources: the record store and the disk. *)
Record State : Type := mkState {
  categories : list Category.t;
  pictures : list Picture.t;
  files : list string
}.

(** What the surroundings decide during one request. *)
Record Env : Type := mkEnv {
  cwd : string;          (* process.cwd() *)
  now : Z;               (* new Date() *)
  newId : string;        (* the _id generated by [new Model(...)] *)
  saveFails : bool;      (* the promise of [save()] is rejected *)
  casts : string -> bool (* the schema casts the string to an _id *)
}.

(** ** Responses *)

Inductive Body : Type :=
| Text (s : string)                        (* res.sendStatus *)
| ErrorBody (error : string)               (* { error } *)
| MessageBody (msg : string)               (* { message } *)
| PicturesBody (ps : list Picture.t)       (* { pictures } *)
| PictureBody (p : option Picture.t)       (* a picture document, or null *)
| CategoryBody (c : Category.t).

Record Response : Type := mkResponse {
  status : Z;
  body : Body
}.

(** How a handler invocation ends. *)
Inductive Outcome : Type :=
| Responded (r : Response)
    (* the handler wrote a response *)
| Thrown (e : exn)
    (* an exception left the handler synchronously; the framework's
       default error handler answers it with status 500 *)
| Unhandled (e : exn).
    (* an exception was raised inside a promise callback with no rejection
       handler behind it: no response is ever written *)

(** [handleError(res, err)] *)
Definition handleError (err : exn) : Response :=
  mkResponse 500 (ErrorBody (message err)).

(** ** The disk *)

Definition uploadDir (env : Env) : string := cwd env ++ "/public/uploads/".

(** [getLocalPath(url)] *)
Definition getLocalPath (env : Env) (url : string) : string :=
  cwd env ++ "/public" ++ url.

Definition existsFile (path : string) (fs : list string) : bool :=
  existsb (String.eqb path) fs.

Definition removeFile (path : string) (fs : list string) : list string :=
  filter (fun p => negb (String.eqb path p)) fs.

Definition ENOENT (path : string) : exn :=
  Error ("ENOENT: no such file or directory, " ++ path).

(** [fs.unlink]: the new disk and the error passed to the callback. *)
Definition unlink (path : string) (fs : list string) : list string * option exn :=
  if existsFile path fs then (removeFile path fs, None)
  else (fs, Some (ENOENT path)).

(** [fs.rename]: an existing target is replaced. *)
Definition rename (oldPath newPath : string) (fs : list string)
  : list string * option exn :=
  if existsFile oldPath fs
  then (newPath :: removeFile newPath (removeFile oldPath fs), None)
  else (fs, Some (ENOENT oldPath)).

(** [fsRemove(path)]: the promise is rejected with the error of [unlink]. *)
Definition fsRemove (path : string) (fs : list string) : list string * option exn :=
  unlink path fs.

(** [fsRenameLocal(dir, oldFilename, newFilename)] *)
Definition fsRenameLocal (dir oldFilename newFilename : string) (fs : list string)
  : list string * option exn :=
  rename (dir ++ oldFilename) (dir ++ newFilename) fs.

(** ** The record store *)

(** What the promise of a query by id settles to: a document or null, or
    the error of a string that does not cast. *)
Inductive Settled (A : Type) : Type :=
| Fulfilled (doc : option A)
| RejectedWith (err : exn).

Arguments Fulfilled {A} doc.
Arguments RejectedWith {A} err.

Definition CastError (value : string) : exn :=
  Error ("Cast to ObjectId failed for value " ++ value ++ " at path _id").

(** The promise of a query by id, given the document the collection holds
    under the id, if any. *)
Definition settle {A : Type} (env : Env) (id : string) (found : option A) : Settled A :=
  match found with
  | Some d => Fulfilled (Some d)
  | None => if casts env id then Fulfilled None else RejectedWith (CastError id)
  end.

Module Categories.
Definition findById (id : string) (l : list Category.t) : option Category.t :=
  find (fun c => String.eqb (Category._id c) id) l.

(** [document.remove()]: the document with this [_id] leaves the collection. *)
Definition remove (id : string) (l : list Category.t) : list Category.t :=
  filter (fun c => negb (String.eqb (Category._id c) id)) l.

(** [document.save()] of a new document. *)
Definition save (env : Env) (c : Category.t) (l : list Category.t) : list Category.t :=
  if saveFails env then l else (l ++ [c])%list.
End Categories.

Module Pictures.
Definition findById (id : string) (l : list Picture.t) : option Picture.t :=
  find (fun p => String.eqb (Picture._id p) id) l.

(** [Picture.find({ categoryId })] *)
Definition findByCategory (categoryId : string) (l : list Picture.t) : list Picture.t :=
  filter (fun p => String.eqb (Picture.categoryId p) categoryId) l.

Definition remove (id : string) (l : list Picture.t) : list Picture.t :=
  filter (fun p => negb (String.eqb (Picture._id p) id)) l.

Definition save (env : Env) (p : Picture.t) (l : list Picture.t) : list Picture.t :=
  if saveFails env then l else (l ++ [p])%list.

(** The update document of [findByIdAndUpdate]: the fields it sets. *)
Record patch : Type := mkPatch {
  set_matches : option (list string);
  set_imageUrl : option string
}.

Definition apply (u : patch) (p : Picture.t) : Picture.t :=
  Picture.mk (Picture._id p) (Picture.categoryId p)
    (match set_matches u with Some m => m | None => Picture.matches p end)
    (match set_imageUrl u with Some i => i | None => Picture.imageUrl p end)
    (Picture.dateAdded p).

(** [Picture.findByIdAndUpdate(id, update)]: the new collection. *)
Definition findByIdAndUpdate (id : string) (u : patch) (l : list Picture.t)
  : list Picture.t :=
  map (fun p => if String.eqb (Picture._id p) id then apply u p else p) l.

(** [Picture.findByIdAndRemove(id)] *)
Definition findByIdAndRemove (id : string) (l : list Picture.t) : list Picture.t :=
  remove id l.
End Pictures.

(** ** The aggregation pipeline of the sampling route *)

(** The stages the route uses. *)
Inductive Stage : Type :=
| Match_categoryId (categoryId : string)   (* { $match: { categoryId } } *)
| Sort_dateAdded_desc                      (* { $sort: { dateAdded: -1 } } *)
| Limit (n : nat)                          (* { $limit: n } *)
| Skip (n : nat)                           (* { $skip: n } *)
| Sample (size : Z)                        (* { $sample: { size } } *)
| Match_id_nin (ids : list string).        (* { $match: { _id: { $nin: ids } } } *)

Fixpoint insertByDate (p : Picture.t) (l : list Picture.t) : list Picture.t :=
  match l with
  | [] => [p]
  | q :: l' =>
      if Picture.dateAdded q <=? Picture.dateAdded p then p :: l
      else q :: insertByDate p l'
  end.

(** Most recent first; documents of equal date keep their order. *)
Definition sortByDateDesc (l : list Picture.t) : list Picture.t :=
  fold_right insertByDate [] l.

Definition memId (id : string) (ids : list string) : bool :=
  existsb (String.eqb id) ids.

(** One stage.  [choose n docs] is the random choice of the [$sample] stage
    asked for [n] documents; the store refuses a negative size. *)
Definition runStage (choose : nat -> list Picture.t -> list Picture.t)
  (stage : Stage) (docs : list Picture.t) : throws (list Picture.t) :=
  match stage with
  | Match_categoryId c =>
      ret (filter (fun p => String.eqb (Picture.categoryId p) c) docs)
  | Sort_dateAdded_desc => ret (sortByDateDesc docs)
  | Limit n => ret (firstn n docs)
  | Skip n => ret (skipn n docs)
  | Sample size =>
      if size <? 0 then throw (Error "size argument to $sample must not be negative")
      else ret (choose (Z.to_nat size) docs)
  | Match_id_nin ids =>
      ret (filter (fun p => negb (memId (Picture._id p) ids)) docs)
  end.

(** [Picture.aggregate(pipeline)] *)
Fixpoint aggregate (choose : nat -> list Picture.t -> list Picture.t)
  (pipeline : list Stage) (docs : list Picture.t) : throws (list Picture.t) :=
  match pipeline with
  | [] => ret docs
  | stage :: pipeline' =>
      (docs' <- runStage choose stage docs ;; aggregate choose pipeline' docs')%throws
  end.

(** The random inputs of one sampling request. *)
Record Random : Type := mkRandom {
  getRandomInt : Z -> Q -> Z;
  chooseLatest : nat -> list Picture.t -> list Picture.t;  (* first query *)
  chooseRest : nat -> list Picture.t -> list Picture.t     (* second query *)
}.

(** Modelled from the spec: [getRandomInt] lives in utils/randomUtils.js,
    which is not among the sources.  The spec describes its result as "a
    uniform random integer in [1, floor(count/2)] (minimum 1, so at least one
    fresh item is always attempted even for small count)": the draw lies
    between the lower bound and the floor of the upper bound, and is the lower
    bound when that floor is below it. *)
Definition getRandomInt_range (draw : Z -> Q -> Z) : Prop :=
  forall (lo : Z) (hi : Q), lo <= draw lo hi <= Z.max lo (Qfloor hi).

(** What the store promises of [$sample]: documents of its input, no more of
    them than asked for. *)
Definition sample_choice (choose : nat -> list Picture.t -> list Picture.t) : Prop :=
  forall n docs, incl (choose n docs) docs /\ (List.length (choose n docs) <= n)%nat.

(** A [$sample] that returns no document twice. *)
Definition sample_distinct (choose : nat -> list Picture.t -> list Picture.t) : Prop :=
  forall n docs,
    NoDup (map Picture._id docs) -> NoDup (map Picture._id (choose n docs)).

(** A JavaScript object: a reference and the document it holds.  [Set]
    compares objects by reference. *)
Record Obj : Type := mkObj {
  ref : nat;
  doc : Picture.t
}.

(** The array an aggregation resolves to: one new object per document. *)
Definition materialize (docs : list Picture.t) : list Obj :=
  map (fun rd => mkObj (fst rd) (snd rd)) (combine (seq 0 (List.length docs)) docs).

(** [Array.from(new Set(xs))]: the first occurrence of every reference, in
    order. *)
Fixpoint Array_from_Set (xs : list Obj) : list Obj :=
  match xs with
  | [] => []
  | x :: xs' => x :: filter (fun y => negb (Nat.eqb (ref y) (ref x))) (Array_from_Set xs')
  end.

(** ** Route handlers *)

Definition latestItemsLimit : nat := 50.

Definition ok (b : Body) : Response := mkResponse 200 b.

(** [res.sendStatus(400)] *)
Definition badRequest : Response := mkResponse 400 (Text "Bad Request").

(** GET /categories/:categoryId/:limit, with [limit] the integer that
    [parseInt] read. *)
Definition sampleBatch (rnd : Random) (categoryId : string) (limit : Z) (st : State)
  : Response :=
  let latestBucketSize := getRandomInt rnd 1 (limit # 2) in
  match aggregate (chooseLatest rnd)
          [ Match_categoryId categoryId; Sort_dateAdded_desc;
            Limit latestItemsLimit; Sample latestBucketSize ] (pictures st) with
  | inl err => mkResponse 500 (ErrorBody (message err))
  | inr latest =>
      let latestSet := Array_from_Set (materialize latest) in
      let latestIds := map (fun x => Picture._id (doc x)) latestSet in
      let restItemsCount := limit - Z.of_nat (List.length latestSet) in
      match aggregate (chooseRest rnd)
              [ Match_categoryId categoryId; Sort_dateAdded_desc;
                Skip latestItemsLimit; Sample restItemsCount;
                Match_id_nin latestIds ] (pictures st) with
      | inl err => mkResponse 500 (ErrorBody (message err))
      | inr rest => ok (PicturesBody (map doc latestSet ++ rest)%list)
      end
  end.

(** [req.file] read as an object: a property of [undefined] is a
    [TypeError]. *)
Definition fileOf (image : option File) : throws File :=
  match image with
  | None => throw (TypeError "Cannot read property 'filename' of undefined")
  | Some f => ret f
  end.

(** [image.filename + '.' + getExtension(image.originalname).toLowerCase()] *)
Definition targetFilenameOf (image : File) : throws string :=
  (ext <- getExtension (originalname image) ;;
   ret (filename image ++ "." ++ toLowerCase ext))%throws.

(** POST /categories *)
Definition createCategory (env : Env) (image : option File) (title : option string)
  (st : State) : State * Outcome :=
  match (img <- fileOf image ;;
         name <- targetFilenameOf img ;;
         ret (img, name))%throws with
  | inl e => (st, Thrown e)
  | inr (img, targetFilename) =>
      match rename (uploadDir env ++ filename img) (uploadDir env ++ targetFilename)
              (files st) with
      | (_, Some err) => (st, Responded (handleError err))
      | (fs, None) =>
          let imageUrl := "/uploads/" ++ targetFilename in
          let category := Category.mk (newId env) title imageUrl (now env) in
          (mkState (Categories.save env category (categories st)) (pictures st) fs,
           Responded (ok (CategoryBody category)))
      end
  end.

(** The answer to a picture whose category is not found. *)
Definition invalidReference : Response := mkResponse 400 (ErrorBody "Internal error!").

(** The category the collection holds under the raw body field, if any; an
    undefined id finds nothing. *)
Definition findCategory (categoryId : option string) (l : list Category.t)
  : option Category.t :=
  match categoryId with
  | None => None
  | Some id => Categories.findById id l
  end.

(** [Category.findById(categoryId)] on the raw body field: an undefined id
    is answered with null. *)
Definition findCategoryById (env : Env) (categoryId : option string)
  (l : list Category.t) : Settled Category.t :=
  match categoryId with
  | None => Fulfilled None
  | Some id => settle env id (findCategory categoryId l)
  end.

(** POST /pictures *)
Definition createPicture (env : Env) (image : option File) (matches categoryId : option string)
  (st : State) : State * Outcome :=
  match parseMatches_field matches with
  | inl e => (st, Thrown e)
  | inr matchArray =>
      match image with
      | None => (st, Responded badRequest)
      | Some img =>
          if falsy matches then (st, Responded badRequest)
          else
            match findCategoryById env categoryId (categories st) with
            | RejectedWith _ =>
                (st, Responded (mkResponse 500 (ErrorBody "Server error")))
            | Fulfilled None => (st, Responded invalidReference)
            | Fulfilled (Some category) =>
                match targetFilenameOf img with
                | inl e => (st, Unhandled e)
                | inr targetFilename =>
                    match fsRenameLocal (uploadDir env) (filename img) targetFilename
                            (files st) with
                    | (_, Some err) => (st, Responded (handleError err))
                    | (fs, None) =>
                        let imageUrl := "/uploads/" ++ targetFilename in
                        let picture :=
                          Picture.mk (newId env)
                            (match categoryId with Some id => id | None => EmptyString end)
                            matchArray imageUrl (now env) in
                        (mkState (categories st)
                           (Pictures.save env picture (pictures st)) fs,
                         Responded (ok (PictureBody (Some picture))))
                    end
                end
            end
      end
  end.

(** POST /pictures/:id.  With a new image the rename and the update are
    joined; the rename is issued whatever the update settles to, and a
    rejected update, which needs no input or output, is the first of the two
    to fail. *)
Definition updatePicture (env : Env) (id : string) (image : option File)
  (matches : option string) (st : State) : State * Outcome :=
  match parseMatches_field matches with
  | inl e => (st, Thrown e)
  | inr matchArray =>
      if falsy matches
      then (st, Responded (mkResponse 400 (ErrorBody "Missing field `matches`!")))
      else
        match image with
        | None =>
            match settle env id (Pictures.findById id (pictures st)) with
            | RejectedWith _ =>
                (st, Responded (mkResponse 500 (ErrorBody "Update failed!")))
            | Fulfilled _ =>
                let ps := Pictures.findByIdAndUpdate id
                            (Pictures.mkPatch (Some matchArray) None) (pictures st) in
                (mkState (categories st) ps (files st),
                 Responded (ok (PictureBody (Pictures.findById id ps))))
            end
        | Some img =>
            match targetFilenameOf img with
            | inl e => (st, Thrown e)
            | inr targetFilename =>
                let renamed := fsRenameLocal (uploadDir env) (filename img) targetFilename
                                 (files st) in
                match settle env id (Pictures.findById id (pictures st)) with
                | RejectedWith err =>
                    (mkState (categories st) (pictures st) (fst renamed),
                     Responded (handleError err))
                | Fulfilled _ =>
                    let ps := Pictures.findByIdAndUpdate id
                                (Pictures.mkPatch (Some matchArray)
                                   (Some ("/uploads/" ++ targetFilename)))
                                (pictures st) in
                    (mkState (categories st) ps (fst renamed),
                     Responded
                       match snd renamed with
                       | Some err => handleError err
                       | None => ok (MessageBody "Successfully updated!")
                       end)
                end
            end
        end
  end.

(** The first rejection of two joined promises. *)
Definition firstError (e1 e2 : option exn) : option exn :=
  match e1 with
  | Some e => Some e
  | None => e2
  end.

(** The callback of [Picture.find({ categoryId: id })]: every picture found
    is removed from the collection and its file is unlinked; the joined
    promise is rejected with the first failed unlink. *)
Fixpoint removePictures (env : Env) (found : list Picture.t)
  (ps : list Picture.t) (fs : list string)
  : list Picture.t * list string * option exn :=
  match found with
  | [] => (ps, fs, None)
  | picture :: found' =>
      let ps1 := Pictures.remove (Picture._id picture) ps in
      let '(fs1, e1) := fsRemove (getLocalPath env (Picture.imageUrl picture)) fs in
      let '(ps2, fs2, e2) := removePictures env found' ps1 fs1 in
      (ps2, fs2, firstError e1 e2)
  end.

(** The callback of [Category.findById(id)]. *)
Definition removeCategory (env : Env) (found : option Category.t)
  (cs : list Category.t) (fs : list string)
  : list Category.t * list string * option exn :=
  match found with
  | Some category =>
      let cs1 := Categories.remove (Category._id category) cs in
      let '(fs1, e1) := fsRemove (getLocalPath env (Category.imageUrl category)) fs in
      (cs1, fs1, e1)
  | None => (cs, fs, None)
  end.

(** The rejection of [Category.findById(id)], if the promise is rejected. *)
Definition lookupError (env : Env) (id : string) (found : option Category.t)
  : option exn :=
  match settle env id found with
  | RejectedWith err => Some err
  | Fulfilled _ => None
  end.

(** DELETE /categories/:id.  A rejected lookup of the category removes
    nothing and is the first of the joined promises to fail. *)
Definition deleteCategory (env : Env) (id : string) (st : State) : State * Outcome :=
  let '(ps, fs1, e1) :=
    removePictures env (Pictures.findByCategory id (pictures st)) (pictures st) (files st) in
  let '(cs, fs2, e2) :=
    removeCategory env (Categories.findById id (categories st)) (categories st) fs1 in
  (mkState cs ps fs2,
   Responded
     match firstError (lookupError env id (Categories.findById id (categories st)))
             (firstError e1 e2) with
     | Some err => handleError err
     | None => ok (MessageBody "Success!")
     end).

(** DELETE /pictures/:id, for a removal that the store answers, with the
    picture or with null: the fulfilment callback of
    [Picture.findByIdAndRemove(id)]. *)
Definition deletePicture (id : string) (st : State) : State * Outcome :=
  (mkState (categories st) (Pictures.findByIdAndRemove id (pictures st)) (files st),
   Responded (ok (MessageBody "success"))).

(** DELETE /pictures/:id: a rejected removal removes nothing and is answered
    through [handleError]. *)
Definition deletePictureRoute (env : Env) (id : string) (st : State) : State * Outcome :=
  match settle env id (Pictures.findById id (pictures st)) with
  | RejectedWith err => (st, Responded (handleError err))
  | Fulfilled _ => deletePicture id st
  end.

(** ** Scenarios

    Concrete stores, requests and random inputs on which the properties
    below are exercised. *)

(** A schema whose [_id] is the driver's object id: the strings of 24
    hexadecimal digits cast. *)
Definition isHexDigit (c : ascii) : bool :=
  let n := nat_of_ascii c in
  ((48 <=? n) && (n <=? 57) || (65 <=? n) && (n <=? 70) || (97 <=? n) && (n <=? 102))%nat.

Fixpoint allHex (s : string) : bool :=
  match s with
  | EmptyString => true
  | String c s' => isHexDigit c && allHex s'
  end.

Definition objectIdString (s : string) : bool :=
  (String.length s =? 24)%nat && allHex s.

Definition env1 : Env :=
  mkEnv "/srv/app" 1700000000000 "5f00000000000000000000aa" false objectIdString.

(** The same surroundings, with the insert failing. *)
Definition envSaveFails : Env :=
  mkEnv "/srv/app" 1700000000000 "5f00000000000000000000aa" true objectIdString.

Definition animals : Category.t :=
  Category.mk "c1" (Some "Animals") "/uploads/a1.png" 100.

Definition plants : Category.t :=
  Category.mk "c2" (Some "Plants") "/uploads/a2.png" 200.

Definition dog : Picture.t := Picture.mk "p1" "c1" ["dog"] "/uploads/b1.jpg" 110.
Definition cat : Picture.t := Picture.mk "p2" "c1" ["cat"; "animal"] "/uploads/b2.jpg" 120.
Definition fern : Picture.t := Picture.mk "p3" "c2" ["fern"] "/uploads/b3.jpg" 210.

(** Two categories, three pictures, every blob on disk, and one upload that
    multer has staged under its generated name. *)
Definition store1 : State :=
  mkState [animals; plants] [dog; cat; fern]
    [ "/srv/app/public/uploads/a1.png"; "/srv/app/public/uploads/a2.png";
      "/srv/app/public/uploads/b1.jpg"; "/srv/app/public/uploads/b2.jpg";
      "/srv/app/public/uploads/b3.jpg"; "/srv/app/public/uploads/7c9e" ].

(** The staged upload, declared with and without an extension. *)
Definition uploadJpg : File := mkFile "7c9e" "Holiday.JPG".
Definition uploadBare : File := mkFile "7c9e" "holiday".

(** A random source that draws the largest admissible integer and whose
    [$sample] returns the first documents of its input. *)
Definition rndFirst : Random :=
  mkRandom (fun lo hi => Z.max lo (Qfloor hi))
    (fun n docs => firstn n docs) (fun n docs => firstn n docs).

(** A random source whose first [$sample] returns one document as often as
    it is asked for documents. *)
Definition rndRepeat : Random :=
  mkRandom (fun lo hi => Z.max lo (Qfloor hi))
    (fun n docs => match docs with d :: _ => repeat d n | [] => [] end)
    (fun n docs => firstn n docs).

(** The documents that match the filter of the sampling route. *)
Definition population (categoryId : string) (st : State) : list Picture.t :=
  filter (fun p => String.eqb (Picture.categoryId p) categoryId) (pictures st).

(** The documents the first query samples from: the [latestItemsLimit] most
    recent of the population. *)
Definition latestWindow (categoryId : string) (st : State) : list Picture.t :=
  firstn latestItemsLimit (sortByDateDesc (population categoryId st)).

(** The documents the second query samples from: the population without
    its [latestItemsLimit] most recent. *)
Definition olderItems (categoryId : string) (st : State) : list Picture.t :=
  skipn latestItemsLimit (sortByDateDesc (population categoryId st)).

(** The answer of the store to a negative [$sample] size, as the route
    passes it on. *)
Definition negativeSampleSize : Response :=
  mkResponse 500 (ErrorBody "size argument to $sample must not be negative").

(** The route answers with every document of the matching population. *)
Definition returns_whole_population (rnd : Random) (categoryId : string) (limit : Z)
  (st : State) : Prop :=
  exists batch,
    sampleBatch rnd categoryId limit st = ok (PicturesBody batch) /\
    forall p, In p (population categoryId st) -> In p batch.

(** ** Vocabulary of further properties *)

(** [Array.prototype.join] with a one-character separator. *)
Fixpoint join (sep : ascii) (pieces : list string) : string :=
  match pieces with
  | [] => EmptyString
  | [piece] => piece
  | piece :: pieces' => piece ++ String sep (join sep pieces')
  end.

Definition startsWithSpace (s : string) : bool :=
  match s with
  | EmptyString => false
  | String c _ => isWhiteSpace c
  end.

Fixpoint endsWithSpace (s : string) : bool :=
  match s with
  | EmptyString => false
  | String c EmptyString => isWhiteSpace c
  | String _ s' => endsWithSpace s'
  end.

Fixpoint noUpper (s : string) : bool :=
  match s with
  | EmptyString => true
  | String c s' => negb (isUpper c) && noUpper s'
  end.

(** A tag as [parseMatches] leaves it: no comma, no upper-case letter, no
    white space at either end. *)
Definition normalEntry (entry : string) : bool :=
  (occurrences "," entry =? 0)%nat && noUpper entry
  && negb (startsWithSpace entry) && negb (endsWithSpace entry).

(** The store keeps [_id] unique in each collection. *)
Definition uniqueIds (st : State) : Prop :=
  NoDup (map Category._id (categories st)) /\ NoDup (map Picture._id (pictures st)).

(** Every record points to a file that exists. *)
Definition blobsPresent (env : Env) (st : State) : Prop :=
  (forall c, In c (categories st) -> In (getLocalPath env (Category.imageUrl c)) (files st)) /\
  (forall p, In p (pictures st) -> In (getLocalPath env (Picture.imageUrl p)) (files st)).

(** Most recent first. *)
Fixpoint descending (l : list Picture.t) : Prop :=
  match l with
  | [] => True
  | p :: l' =>
      (forall q, In q l' -> Picture.dateAdded q <= Picture.dateAdded p) /\ descending l'
  end.

(** The outcome is the answer 200. *)
Definition succeeded (o : Outcome) : Prop :=
  exists b, o = Responded (ok b).

(** The paths [deleteCategory] unlinks, in the order of the calls: the files
    of the pictures found, then the file of the category found. *)
Definition unlinkedPaths (env : Env) (id : string) (st : State) : list string :=
  (map (fun p => getLocalPath env (Picture.imageUrl p))
     (Pictures.findByCategory id (pictures st))
   ++ match Categories.findById id (categories st) with
      | Some c => [getLocalPath env (Category.imageUrl c)]
      | None => []
      end)%list.

(** No record points to the path. *)
Definition unreferenced (env : Env) (path : string) (st : State) : Prop :=
  (forall c, In c (categories st) -> getLocalPath env (Category.imageUrl c) <> path) /\
  (forall p, In p (pictures st) -> getLocalPath env (Picture.imageUrl p) <> path).

(** No two records share a file. *)
Definition blobsDistinct (env : Env) (st : State) : Prop :=
  NoDup (map (fun c => getLocalPath env (Category.imageUrl c)) (categories st)
         ++ map (fun p => getLocalPath env (Picture.imageUrl p)) (pictures st))%list.

(** A [$sample] that returns as many documents as it is asked for, or all
    of them when there are fewer. *)
Definition sample_full (choose : nat -> list Picture.t -> list Picture.t) : Prop :=
  forall n docs, List.length (choose n docs) = Nat.min n (List.length docs).

(** A category with 60 pictures, added one after the other. *)
Definition archive : State :=
  mkState [animals]
    (map (fun i => Picture.mk (String (ascii_of_nat (65 + i)) EmptyString) "c1" ["cat"]
                     ("/uploads/" ++ String (ascii_of_nat (65 + i)) ".jpg")
                     (Z.of_nat i))
       (seq 0 60))
    [].

(** No string occurs twice. *)
Fixpoint distinctStrings (l : list string) : bool :=
  match l with
  | [] => true
  | x :: l' => negb (existsb (String.eqb x) l') && distinctStrings l'
  end.

(** The text holds ASCII characters only; on such a text [trim] and
    [toLowerCase] are the functions of JavaScript. *)
Fixpoint asciiOnly (s : string) : bool :=
  match s with
  | EmptyString => true
  | String c s' => (nat_of_ascii c <? 128)%nat && asciiOnly s'
  end.

(** * Properties *)

(** ** Strings *)

Lemma split_nonempty (sep : ascii) (s : string) : split sep s <> [].
Proof.
  destruct s as [|c s]; simpl; [discriminate|].
  destruct (Ascii.eqb c sep); [discriminate|].
  destruct (split sep s); discriminate.
Qed.

(** [split] returns one piece more than there are separators. *)
Lemma split_length (sep : ascii) (s : string) :
  List.length (split sep s) = S (occurrences sep s).
Proof.
  induction s as [|c s IH]; simpl; [reflexivity|].
  destruct (Ascii.eqb c sep); simpl; [now rewrite IH|].
  destruct (split sep s) as [|piece pieces] eqn:E; simpl in *; [discriminate|exact IH].
Qed.

Lemma getExtension_no_dot (path : string) :
  occurrences "." path = O ->
  getExtension path = inl (Error "Unknown file type!").
Proof.
  intros H. unfold getExtension. rewrite split_length, H. reflexivity.
Qed.

Lemma getExtension_dot (path : string) :
  occurrences "." path <> O ->
  getExtension path = inr (last (split "." path) EmptyString).
Proof.
  intros H. unfold getExtension. rewrite split_length.
  destruct (occurrences "." path); [contradiction|reflexivity].
Qed.

(** ** The disk *)

Lemma existsFile_In (path : string) (fs : list string) :
  existsFile path fs = true <-> In path fs.
Proof.
  unfold existsFile. rewrite existsb_exists. split.
  - intros [x [Hx E]]. apply String.eqb_eq in E. now subst.
  - intros H. exists path. split; [assumption|apply String.eqb_refl].
Qed.

Lemma In_removeFile (p path : string) (fs : list string) :
  In p (removeFile path fs) <-> In p fs /\ p <> path.
Proof.
  unfold removeFile. rewrite filter_In, negb_true_iff, String.eqb_neq.
  intuition congruence.
Qed.

(** After [unlink] the path does not exist, whether the call failed or not,
    and no other path is touched. *)
Lemma In_unlink (p path : string) (fs : list string) :
  In p (fst (unlink path fs)) <-> In p fs /\ p <> path.
Proof.
  unfold unlink. destruct (existsFile path fs) eqn:E; simpl.
  - apply In_removeFile.
  - split; [|tauto]. intros H. split; [assumption|].
    intros ->. apply existsFile_In in H. congruence.
Qed.

Lemma unlink_ok (path : string) (fs : list string) :
  snd (unlink path fs) = None <-> In path fs.
Proof.
  unfold unlink. rewrite <- existsFile_In.
  destruct (existsFile path fs); simpl; split; congruence.
Qed.

(** The URL stored for an upload leads back to the renamed file. *)
Lemma getLocalPath_upload (env : Env) (name : string) :
  getLocalPath env ("/uploads/" ++ name) = uploadDir env ++ name.
Proof.
  unfold getLocalPath, uploadDir.
  induction (cwd env) as [|c s IH]; simpl; [reflexivity|].
  f_equal. exact IH.
Qed.

(** ** The record store *)

Lemma In_Pictures_remove (p : Picture.t) (id : string) (l : list Picture.t) :
  In p (Pictures.remove id l) <-> In p l /\ Picture._id p <> id.
Proof.
  unfold Pictures.remove. rewrite filter_In, negb_true_iff, String.eqb_neq. tauto.
Qed.

Lemma In_Categories_remove (c : Category.t) (id : string) (l : list Category.t) :
  In c (Categories.remove id l) <-> In c l /\ Category._id c <> id.
Proof.
  unfold Categories.remove. rewrite filter_In, negb_true_iff, String.eqb_neq. tauto.
Qed.

Lemma In_findByCategory (p : Picture.t) (id : string) (l : list Picture.t) :
  In p (Pictures.findByCategory id l) <-> In p l /\ Picture.categoryId p = id.
Proof.
  unfold Pictures.findByCategory. rewrite filter_In, String.eqb_eq. tauto.
Qed.

Lemma Categories_findById_Some (id : string) (l : list Category.t) (c : Category.t) :
  Categories.findById id l = Some c -> In c l /\ Category._id c = id.
Proof.
  unfold Categories.findById. intros H. apply find_some in H.
  now rewrite String.eqb_eq in H.
Qed.

Lemma Categories_findById_None (id : string) (l : list Category.t) :
  Categories.findById id l = None <-> forall c, In c l -> Category._id c <> id.
Proof.
  unfold Categories.findById. split.
  - intros H c Hc. apply (find_none _ _ H) in Hc. now apply String.eqb_neq.
  - intros H. induction l as [|c l IH]; simpl; [reflexivity|].
    destruct (String.eqb (Category._id c) id) eqn:E.
    + apply String.eqb_eq in E. exfalso. apply (H c); simpl; auto.
    + apply IH. intros c' Hc'. apply H. simpl; auto.
Qed.

Lemma Pictures_findById_Some (id : string) (l : list Picture.t) (p : Picture.t) :
  Pictures.findById id l = Some p -> In p l /\ Picture._id p = id.
Proof.
  unfold Pictures.findById. intros H. apply find_some in H.
  now rewrite String.eqb_eq in H.
Qed.

(** A document that the collection holds is what the query settles to. *)
Lemma settle_found {A : Type} (env : Env) (id : string) (d : A) :
  settle env id (Some d) = Fulfilled (Some d).
Proof. reflexivity. Qed.

Lemma findCategoryById_found (env : Env) (categoryId : option string)
  (l : list Category.t) (category : Category.t) :
  findCategory categoryId l = Some category ->
  findCategoryById env categoryId l = Fulfilled (Some category).
Proof.
  destruct categoryId as [id|]; [|discriminate].
  unfold findCategoryById. now intros ->.
Qed.

(** ** Cascade delete *)

(** What [removePictures] leaves: the pictures whose [_id] is not among the
    found ones, and the files that are not the file of a found picture. *)
Lemma removePictures_spec (env : Env) (found ps : list Picture.t) (fs : list string) :
  (forall p, In p (fst (fst (removePictures env found ps fs))) <->
             In p ps /\ ~ In (Picture._id p) (map Picture._id found)) /\
  (forall f, In f (snd (fst (removePictures env found ps fs))) <->
             In f fs /\
             ~ In f (map (fun q => getLocalPath env (Picture.imageUrl q)) found)).
Proof.
  revert ps fs. induction found as [|picture found IH]; intros ps fs; simpl.
  - split; intros; tauto.
  - unfold fsRemove.
    pose proof (In_unlink) as U.
    destruct (unlink (getLocalPath env (Picture.imageUrl picture)) fs) as [fs1 e1] eqn:Eu.
    specialize (IH (Pictures.remove (Picture._id picture) ps) fs1).
    destruct (removePictures env found (Pictures.remove (Picture._id picture) ps) fs1)
      as [[ps2 fs2] e2]; simpl in *.
    destruct IH as [IHp IHf]. split.
    + intros p. rewrite IHp, In_Pictures_remove. intuition congruence.
    + intros f. rewrite IHf.
      specialize (U f (getLocalPath env (Picture.imageUrl picture)) fs).
      rewrite Eu in U. simpl in U. rewrite U. intuition congruence.
Qed.

Lemma removeCategory_spec (env : Env) (id : string) (cs : list Category.t)
  (fs : list string) :
  let r := removeCategory env (Categories.findById id cs) cs fs in
  (forall c, In c (fst (fst r)) <-> In c cs /\ Category._id c <> id) /\
  (forall f, In f (snd (fst r)) <->
             In f fs /\
             forall c, Categories.findById id cs = Some c ->
                       f <> getLocalPath env (Category.imageUrl c)).
Proof.
  simpl. destruct (Categories.findById id cs) as [category|] eqn:E; simpl.
  - apply Categories_findById_Some in E as [_ Hid].
    unfold fsRemove.
    pose proof (fun f => In_unlink f (getLocalPath env (Category.imageUrl category)) fs) as U.
    destruct (unlink (getLocalPath env (Category.imageUrl category)) fs) as [fs1 e1].
    simpl in *. split.
    + intros c. rewrite In_Categories_remove, Hid. tauto.
    + intros f. rewrite U. split.
      * intros [H1 H2]. split; [assumption|]. intros c [= <-]. assumption.
      * intros [H1 H2]. split; [assumption|]. now apply H2.
  - split.
    + intros c. split; [|tauto]. intros H. split; [assumption|].
      rewrite Categories_findById_None in E. now apply E.
    + intros f. split; [|tauto]. intros H. split; [assumption|]. discriminate.
Qed.

(** C1. For every category id, [deleteCategory] leaves no Category record
    with that id and no file at the path of the found category's image; every
    picture that referenced the id has left the collection and its file has
    left the disk; no picture that references the id remains.  Nothing is
    added to either store. *)
Theorem deleteCategory_cascade (env : Env) (id : string) (st : State) :
  let st' := fst (deleteCategory env id st) in
  (forall c, In c (categories st') -> Category._id c <> id) /\
  (forall c, Categories.findById id (categories st) = Some c ->
             ~ In c (categories st') /\
             ~ In (getLocalPath env (Category.imageUrl c)) (files st')) /\
  (forall p, In p (pictures st) -> Picture.categoryId p = id ->
             ~ In p (pictures st') /\
             ~ In (getLocalPath env (Picture.imageUrl p)) (files st')) /\
  (forall p, In p (pictures st') -> Picture.categoryId p <> id) /\
  incl (categories st') (categories st) /\
  incl (pictures st') (pictures st) /\
  incl (files st') (files st).
Proof.
  unfold deleteCategory.
  pose proof (removePictures_spec env (Pictures.findByCategory id (pictures st))
                (pictures st) (files st)) as [Hp Hf].
  destruct (removePictures env (Pictures.findByCategory id (pictures st))
              (pictures st) (files st)) as [[ps fs1] e1].
  pose proof (removeCategory_spec env id (categories st) fs1) as [Hc Hg].
  destruct (removeCategory env (Categories.findById id (categories st))
              (categories st) fs1) as [[cs fs2] e2].
  simpl in *.
  assert (Hfound : forall p, In p (pictures st) -> Picture.categoryId p = id ->
                             In p (Pictures.findByCategory id (pictures st))).
  { intros p H1 H2. now apply In_findByCategory. }
  split; [|split; [|split; [|split; [|split; [|split]]]]].
  - intros c H. now apply Hc in H.
  - intros c Hfind. split.
    + intros H. apply Hc in H as [_ H].
      apply Categories_findById_Some in Hfind as [_ Hfind]. contradiction.
    + intros H. apply Hg in H as [_ H]. now apply (H c).
  - intros p Hin Hcat. split.
    + intros H. apply Hp in H as [_ H]. apply H.
      apply in_map. now apply Hfound.
    + intros H. apply Hg in H as [H _]. apply Hf in H as [_ H]. apply H.
      apply (in_map (fun q => getLocalPath env (Picture.imageUrl q))).
      now apply Hfound.
  - intros p Hin Hcat. apply Hp in Hin as [Hin Hnot].
    apply Hnot. apply in_map. now apply Hfound.
  - intros c H. now apply Hc in H.
  - intros p H. now apply Hp in H.
  - intros f H. apply Hg in H as [H _]. now apply Hf in H.
Qed.

(** ** Delete picture *)

(** C9. [deletePicture] removes the Picture record with the given id and
    nothing else: the disk, and with it the file the picture's imageUrl
    points to, and the categories are as before. *)
Theorem deletePicture_keeps_blob (env : Env) (id : string) (st : State) :
  let st' := fst (deletePicture id st) in
  files st' = files st /\
  categories st' = categories st /\
  (forall p, In p (pictures st') <-> In p (pictures st) /\ Picture._id p <> id) /\
  (forall p, Pictures.findById id (pictures st) = Some p ->
             (In (getLocalPath env (Picture.imageUrl p)) (files st') <->
              In (getLocalPath env (Picture.imageUrl p)) (files st))) /\
  snd (deletePicture id st) = Responded (ok (MessageBody "success")).
Proof.
  simpl. split; [reflexivity|]. split; [reflexivity|]. split; [|split].
  - intros p. apply In_Pictures_remove.
  - intros p _. tauto.
  - reflexivity.
Qed.

(** ** Validation of the [matches] field *)

(** C5. A request without a [matches] field never reaches the guard that
    would answer it with status 400: [parseMatches] runs first and throws a
    [TypeError], in the create route and in the update route alike.  Only
    the empty field is answered with status 400. *)
Theorem absent_matches_throws (env : Env) (id : string) (image : option File)
  (categoryId : option string) (st : State) :
  createPicture env image None categoryId st
  = (st, Thrown (TypeError "Cannot read property 'split' of undefined")) /\
  updatePicture env id None None st
  = (st, Thrown (TypeError "Cannot read property 'split' of undefined")) /\
  createPicture env image (Some "") categoryId st = (st, Responded badRequest) /\
  updatePicture env id None (Some "") st
  = (st, Responded (mkResponse 400 (ErrorBody "Missing field `matches`!"))).
Proof.
  repeat split. simpl. now destruct image.
Qed.

(** ** Create picture *)




(** ** Uploads without an extension *)

(** C6. An upload whose declared name has no dot makes [getExtension]
    throw.  In [createCategory] the exception leaves the handler; in
    [createPicture] it is raised inside the callback of the category lookup,
    where nothing catches it, and no response is written.  Neither store
    changes in either route. *)
Theorem missing_extension_not_reported (env : Env) (img : File)
  (title matches categoryId : option string) (category : Category.t) (st : State) :
  occurrences "." (originalname img) = O ->
  falsy matches = false ->
  findCategory categoryId (categories st) = Some category ->
  createCategory env (Some img) title st = (st, Thrown (Error "Unknown file type!")) /\
  createPicture env (Some img) matches categoryId st
  = (st, Unhandled (Error "Unknown file type!")).
Proof.
  intros Hdot Hm Hc.
  assert (Hname : targetFilenameOf img = inl (Error "Unknown file type!")).
  { unfold targetFilenameOf. now rewrite (getExtension_no_dot _ Hdot). }
  unfold createCategory, createPicture. cbn [fileOf bind ret].
  rewrite Hname. cbn [bind]. split; [reflexivity|].
  destruct matches as [m|]; [|discriminate]. cbn [parseMatches_field ret].
  rewrite Hm, (findCategoryById_found _ _ _ _ Hc). reflexivity.
Qed.

Lemma missing_extension_not_reported_witness :
  createCategory env1 (Some uploadBare) (Some "Birds") store1
  = (store1, Thrown (Error "Unknown file type!")) /\
  createPicture env1 (Some uploadBare) (Some "dog") (Some "c1") store1
  = (store1, Unhandled (Error "Unknown file type!")).
Proof.
  apply (missing_extension_not_reported env1 uploadBare (Some "Birds") (Some "dog")
           (Some "c1") animals store1); reflexivity.
Defined.

(** ** Update picture *)

Lemma apply_id (u : Pictures.patch) (p : Picture.t) :
  Picture._id (Pictures.apply u p) = Picture._id p.
Proof. reflexivity. Qed.

(** After [findByIdAndUpdate] the document found under the id is the
    patched one. *)
Lemma findById_findByIdAndUpdate (id : string) (u : Pictures.patch) (l : list Picture.t) :
  Pictures.findById id (Pictures.findByIdAndUpdate id u l)
  = option_map (Pictures.apply u) (Pictures.findById id l).
Proof.
  unfold Pictures.findById, Pictures.findByIdAndUpdate.
  induction l as [|p l IH]; simpl; [reflexivity|].
  destruct (String.eqb (Picture._id p) id) eqn:E; simpl.
  - rewrite E. reflexivity.
  - rewrite E. exact IH.
Qed.

Lemma In_findByIdAndUpdate (id : string) (u : Pictures.patch) (l : list Picture.t)
  (q : Picture.t) :
  In q (Pictures.findByIdAndUpdate id u l) -> Picture._id q = id ->
  exists p, In p l /\ q = Pictures.apply u p.
Proof.
  unfold Pictures.findByIdAndUpdate. intros Hin Hid.
  apply in_map_iff in Hin as [p [Hq Hp]].
  destruct (String.eqb (Picture._id p) id) eqn:E.
  - exists p. split; [assumption|now symmetry].
  - subst q. apply String.eqb_neq in E. contradiction.
Qed.

(** Every entry of [parseMatches] is a piece of the split text, trimmed and
    put in lower case. *)
Lemma parseMatches_entries (s entry : string) :
  In entry (parseMatches s) <->
  exists piece, In piece (split "," s) /\ entry = toLowerCase (trim piece).
Proof.
  unfold parseMatches. rewrite in_map_iff. split; intros [piece [H1 H2]];
    exists piece; split; auto.
Qed.

(** No piece is dropped: there is one entry more than there are commas. *)
Lemma parseMatches_length (s : string) :
  List.length (parseMatches s) = S (occurrences "," s).
Proof. unfold parseMatches. now rewrite length_map, split_length. Qed.

Lemma lowerChar_not_upper (c : ascii) : isUpper (lowerChar c) = false.
Proof. destruct c as [[] [] [] [] [] [] [] []]; reflexivity. Qed.

(** No upper-case ASCII letter is left by [toLowerCase]. *)
Lemma toLowerCase_not_upper (s : string) :
  forallb (fun c => negb (isUpper c)) (list_ascii_of_string (toLowerCase s)) = true.
Proof.
  induction s as [|c s IH]; simpl; [reflexivity|].
  now rewrite lowerChar_not_upper, IH.
Qed.

(** [trim] leaves no white space in front. *)
Lemma trim_no_leading_space (s : string) (c : ascii) (t : string) :
  trim s = String c t -> isWhiteSpace c = false.
Proof.
  unfold trim. induction s as [|a s IH]; simpl; [discriminate|].
  destruct (isWhiteSpace a) eqn:W; [exact IH|].
  simpl. destruct (trimEnd s); [rewrite W|]; intros [= <- _]; exact W.
Qed.

(** C8. On an existing picture, [updatePicture] with a non-empty ASCII
    text stores the tags read from the text and nothing else as its matches:
    the comma-separated pieces of the text, each trimmed and put in lower
    case, none dropped, so that there is one tag more than there are commas
    and a trailing comma gives an empty tag.  This holds with or without a
    new image (a new image must declare an extension); without a new image
    the response carries the updated picture, which differs from the stored
    one in its matches only.  For the text "DOG, Pet ,cat" the tags are dog,
    pet, cat. *)
Theorem updatePicture_sets_matches (env : Env) (id m : string) (image : option File)
  (st : State) (p : Picture.t) :
  m <> EmptyString ->
  asciiOnly m = true ->
  Pictures.findById id (pictures st) = Some p ->
  (forall img, image = Some img -> occurrences "." (originalname img) <> O) ->
  let r := updatePicture env id image (Some m) st in
  let tags := map (fun piece => toLowerCase (trim piece)) (split "," m) in
  (exists p', Pictures.findById id (pictures (fst r)) = Some p' /\
              Picture.matches p' = tags /\
              (image = None ->
               p' = Picture.mk (Picture._id p) (Picture.categoryId p) tags
                      (Picture.imageUrl p) (Picture.dateAdded p) /\
               snd r = Responded (ok (PictureBody (Some p'))))) /\
  (forall q, In q (pictures (fst r)) -> Picture._id q = id -> Picture.matches q = tags) /\
  List.length tags = S (occurrences "," m) /\
  (m = "DOG, Pet ,cat" -> tags = ["dog"; "pet"; "cat"]) /\
  (m = "dog,cat," -> tags = ["dog"; "cat"; ""]).
Proof.
  intros Hm _ Hfind Hext r tags. subst r.
  assert (falsy (Some m) = false) as Hf by (destruct m; [contradiction|reflexivity]).
  fold (parseMatches m) in tags.
  split; [|split; [|split; [exact (parseMatches_length m)|split; intros ->; reflexivity]]].
  - destruct image as [img|].
    + specialize (Hext img eq_refl). apply getExtension_dot in Hext.
      unfold updatePicture, targetFilenameOf. cbn [parseMatches_field ret].
      rewrite Hf, Hext, Hfind, settle_found.
      cbn -[Pictures.findByIdAndUpdate Pictures.findById fsRenameLocal].
      rewrite findById_findByIdAndUpdate, Hfind. simpl.
      eexists. split; [reflexivity|]. split; [reflexivity|discriminate].
    + unfold updatePicture. cbn [parseMatches_field ret].
      rewrite Hf, Hfind, settle_found.
      cbn -[Pictures.findByIdAndUpdate Pictures.findById].
      rewrite findById_findByIdAndUpdate, Hfind. simpl.
      eexists. split; [reflexivity|]. split; [reflexivity|]. intros _.
      split; reflexivity.
  - intros q Hin Hid. destruct image as [img|].
    + specialize (Hext img eq_refl). apply getExtension_dot in Hext.
      unfold updatePicture, targetFilenameOf in Hin. cbn [parseMatches_field ret] in Hin.
      rewrite Hf, Hext, Hfind, settle_found in Hin.
      cbn -[Pictures.findByIdAndUpdate fsRenameLocal] in Hin.
      apply In_findByIdAndUpdate in Hin as [p0 [_ ->]]; [reflexivity|assumption].
    + unfold updatePicture in Hin. cbn [parseMatches_field ret] in Hin.
      rewrite Hf, Hfind, settle_found in Hin.
      cbn -[Pictures.findByIdAndUpdate] in Hin.
      apply In_findByIdAndUpdate in Hin as [p0 [_ ->]]; [reflexivity|assumption].
Qed.

Lemma updatePicture_sets_matches_witness :
  Pictures.findById "p1" (pictures store1) = Some dog /\
  exists p', Pictures.findById "p1"
               (pictures (fst (updatePicture env1 "p1" None (Some "DOG, Pet ,cat") store1)))
             = Some p' /\
             Picture.matches p' = ["dog"; "pet"; "cat"].
Proof.
  split; [reflexivity|].
  destruct (updatePicture_sets_matches env1 "p1" "DOG, Pet ,cat" None store1 dog)
    as [[p' [H1 [H2 _]]] _].
  - discriminate.
  - reflexivity.
  - reflexivity.
  - intros img H. discriminate.
  - exists p'. split; assumption.
Defined.

(** ** Insert failures *)

(** C10. Neither create route waits for [save]: when the insert fails, an
    upload that was renamed to its final name is still answered with status
    200 and the new record, although the record is not in the collection
    and the file is on disk.  The outcome of either route is the same
    whether the insert fails or not. *)
Theorem insert_failure_not_surfaced (env : Env) (img : File) (name : string)
  (title matches : option string) (cid : string) (category : Category.t) (st : State) :
  saveFails env = true ->
  targetFilenameOf img = inr name ->
  In (uploadDir env ++ filename img) (files st) ->
  falsy matches = false ->
  Categories.findById cid (categories st) = Some category ->
  let env' := mkEnv (cwd env) (now env) (newId env) false (casts env) in
  let rc := createCategory env (Some img) title st in
  let rp := createPicture env (Some img) matches (Some cid) st in
  (exists c, snd rc = Responded (ok (CategoryBody c)) /\
             status (ok (CategoryBody c)) = 200 /\
             categories (fst rc) = categories st /\
             In (getLocalPath env (Category.imageUrl c)) (files (fst rc))) /\
  (exists p, snd rp = Responded (ok (PictureBody (Some p))) /\
             pictures (fst rp) = pictures st /\
             In (getLocalPath env (Picture.imageUrl p)) (files (fst rp))) /\
  (forall image title, snd (createCategory env image title st)
                       = snd (createCategory env' image title st)) /\
  (forall image matches categoryId,
      snd (createPicture env image matches categoryId st)
      = snd (createPicture env' image matches categoryId st)).
Proof.
  intros Hfail Hname Hstaged Hm Hc env' rc rp. subst rc rp.
  apply existsFile_In in Hstaged.
  split; [|split; [|split]].
  - unfold createCategory. cbn [fileOf bind ret]. rewrite Hname. cbn [bind ret].
    unfold rename. rewrite Hstaged. unfold Categories.save. rewrite Hfail.
    eexists. split; [reflexivity|]. split; [reflexivity|]. split; [reflexivity|].
    cbn [Category.imageUrl fst files]. rewrite getLocalPath_upload. left. reflexivity.
  - unfold createPicture. destruct matches as [m|]; [|discriminate].
    cbn [parseMatches_field ret]. rewrite Hm. cbn [findCategoryById findCategory].
    rewrite Hc, settle_found, Hname.
    unfold fsRenameLocal, rename. rewrite Hstaged. unfold Pictures.save. rewrite Hfail.
    eexists. split; [reflexivity|]. split; [reflexivity|].
    cbn [Picture.imageUrl fst files]. rewrite getLocalPath_upload. left. reflexivity.
  - intros image title'. unfold createCategory.
    destruct (img0 <- fileOf image;; name0 <- targetFilenameOf img0;; ret (img0, name0))%throws
      as [e|[img0 name0]]; [reflexivity|].
    change (uploadDir env') with (uploadDir env).
    destruct (rename _ _ _) as [fs [err|]]; reflexivity.
  - intros image matches' categoryId. unfold createPicture.
    destruct (parseMatches_field matches'); [reflexivity|].
    destruct image as [img0|]; [|reflexivity].
    destruct (falsy matches'); [reflexivity|].
    change (findCategoryById env' categoryId (categories st))
      with (findCategoryById env categoryId (categories st)).
    destruct (findCategoryById env categoryId (categories st)) as [[c|]|e];
      [|reflexivity|reflexivity].
    destruct (targetFilenameOf img0); [reflexivity|].
    change (uploadDir env') with (uploadDir env).
    destruct (fsRenameLocal _ _ _ _) as [fs [err|]]; reflexivity.
Qed.

Lemma insert_failure_not_surfaced_witness :
  saveFails envSaveFails = true /\
  snd (createPicture envSaveFails (Some uploadJpg) (Some "dog,pet") (Some "c1") store1)
  = snd (createPicture env1 (Some uploadJpg) (Some "dog,pet") (Some "c1") store1) /\
  exists c, snd (createCategory envSaveFails (Some uploadJpg) (Some "Birds") store1)
            = Responded (ok (CategoryBody c)) /\
            categories (fst (createCategory envSaveFails (Some uploadJpg) (Some "Birds") store1))
            = categories store1.
Proof.
  split; [reflexivity|].
  destruct (insert_failure_not_surfaced envSaveFails uploadJpg "7c9e.jpg" (Some "Birds")
              (Some "dog,pet") "c1" animals store1)
    as [[c [H1 [_ [H2 _]]]] [_ [_ H4]]]; try reflexivity.
  - simpl. tauto.
  - split; [apply H4|]. exists c. split; assumption.
Defined.

(** ** The sampling route *)

Lemma insertByDate_perm (p : Picture.t) (l : list Picture.t) :
  Permutation (insertByDate p l) (p :: l).
Proof.
  induction l as [|q l IH]; simpl; [apply Permutation_refl|].
  destruct (Picture.dateAdded q <=? Picture.dateAdded p); [apply Permutation_refl|].
  eapply perm_trans; [apply perm_skip, IH|apply perm_swap].
Qed.

(** Sorting only reorders. *)
Lemma sortByDateDesc_perm (l : list Picture.t) : Permutation (sortByDateDesc l) l.
Proof.
  induction l as [|p l IH]; simpl; [constructor|].
  eapply perm_trans; [apply insertByDate_perm|now apply perm_skip].
Qed.

Lemma materialize_from (k : nat) (docs : list Picture.t) :
  let objs := map (fun rd => mkObj (fst rd) (snd rd))
                (combine (seq k (List.length docs)) docs) in
  map doc objs = docs /\ map ref objs = seq k (List.length docs).
Proof.
  revert k. induction docs as [|d docs IH]; intros k; simpl; [split; reflexivity|].
  destruct (IH (S k)) as [H1 H2]. simpl in H1, H2. now rewrite H1, H2.
Qed.

Lemma map_doc_materialize (docs : list Picture.t) : map doc (materialize docs) = docs.
Proof. apply (materialize_from 0 docs). Qed.

Lemma map_ref_materialize (docs : list Picture.t) :
  map ref (materialize docs) = seq 0 (List.length docs).
Proof. apply (materialize_from 0 docs). Qed.

(** A [Set] drops nothing from objects with pairwise different references. *)
Lemma Array_from_Set_distinct_refs (xs : list Obj) :
  NoDup (map ref xs) -> Array_from_Set xs = xs.
Proof.
  induction xs as [|x xs IH]; simpl; [reflexivity|].
  intros H. inversion H as [|? ? Hnotin Hnodup]; subst.
  rewrite (IH Hnodup). f_equal.
  clear IH H Hnodup. induction xs as [|y xs IH]; simpl; [reflexivity|].
  simpl in Hnotin. destruct (Nat.eqb (ref y) (ref x)) eqn:E; simpl.
  - apply Nat.eqb_eq in E. exfalso. apply Hnotin. now left.
  - f_equal. apply IH. intros Hin. apply Hnotin. now right.
Qed.

(** The objects of an aggregation result are all new, so the [Set] built
    from them holds every one of them, whatever their [_id]. *)
Lemma Array_from_Set_materialize (docs : list Picture.t) :
  Array_from_Set (materialize docs) = materialize docs.
Proof.
  apply Array_from_Set_distinct_refs. rewrite map_ref_materialize. apply seq_NoDup.
Qed.

Lemma aggregate_latest (choose : nat -> list Picture.t -> list Picture.t)
  (categoryId : string) (size : Z) (st : State) :
  aggregate choose
    [ Match_categoryId categoryId; Sort_dateAdded_desc;
      Limit latestItemsLimit; Sample size ] (pictures st)
  = if size <? 0 then inl (Error "size argument to $sample must not be negative")
    else inr (choose (Z.to_nat size) (latestWindow categoryId st)).
Proof.
  cbn [aggregate runStage bind ret]. destruct (size <? 0); reflexivity.
Qed.

Lemma aggregate_rest (choose : nat -> list Picture.t -> list Picture.t)
  (categoryId : string) (size : Z) (ids : list string) (st : State) :
  aggregate choose
    [ Match_categoryId categoryId; Sort_dateAdded_desc;
      Skip latestItemsLimit; Sample size; Match_id_nin ids ] (pictures st)
  = if size <? 0 then inl (Error "size argument to $sample must not be negative")
    else inr (filter (fun p => negb (memId (Picture._id p) ids))
                (choose (Z.to_nat size) (olderItems categoryId st))).
Proof.
  cbn [aggregate runStage bind ret]. destruct (size <? 0); reflexivity.
Qed.

(** The route, with the pipelines evaluated and the [Set] resolved. *)
Lemma sampleBatch_unfold (rnd : Random) (categoryId : string) (limit : Z) (st : State) :
  sampleBatch rnd categoryId limit st =
  let latestBucketSize := getRandomInt rnd 1 (limit # 2) in
  if latestBucketSize <? 0 then negativeSampleSize
  else
    let latest := chooseLatest rnd (Z.to_nat latestBucketSize) (latestWindow categoryId st) in
    let restItemsCount := limit - Z.of_nat (List.length latest) in
    if restItemsCount <? 0 then negativeSampleSize
    else
      ok (PicturesBody
            (latest ++
             filter (fun p => negb (memId (Picture._id p) (map Picture._id latest)))
               (chooseRest rnd (Z.to_nat restItemsCount) (olderItems categoryId st)))%list).
Proof.
  unfold sampleBatch. rewrite aggregate_latest.
  cbv zeta. destruct (getRandomInt rnd 1 (limit # 2) <? 0); [reflexivity|].
  rewrite aggregate_rest, Array_from_Set_materialize.
  rewrite <- (map_map doc Picture._id), map_doc_materialize.
  rewrite <- (length_map doc), map_doc_materialize.
  destruct (_ <? 0); reflexivity.
Qed.

(** For a limit below 2 the admissible draw is 1. *)
Lemma getRandomInt_range_bounds (rnd : Random) (limit : Z) :
  getRandomInt_range (getRandomInt rnd) ->
  1 <= getRandomInt rnd 1 (limit # 2) <= Z.max 1 (limit / 2).
Proof. intros H. exact (H 1 (limit # 2)). Qed.

Lemma memId_In (id : string) (ids : list string) : memId id ids = true <-> In id ids.
Proof.
  unfold memId. rewrite existsb_exists. split.
  - intros [x [Hx E]]. apply String.eqb_eq in E. now subst.
  - intros H. exists id. split; [assumption|apply String.eqb_refl].
Qed.

Lemma latestWindow_incl (categoryId : string) (st : State) :
  incl (latestWindow categoryId st) (population categoryId st).
Proof.
  intros p H. unfold latestWindow in H.
  eapply Permutation_in; [apply sortByDateDesc_perm|].
  rewrite <- (firstn_skipn latestItemsLimit). apply in_or_app. now left.
Qed.

Lemma olderItems_incl (categoryId : string) (st : State) :
  incl (olderItems categoryId st) (population categoryId st).
Proof.
  intros p H. unfold olderItems in H.
  eapply Permutation_in; [apply sortByDateDesc_perm|].
  rewrite <- (firstn_skipn latestItemsLimit). apply in_or_app. now right.
Qed.

Lemma olderItems_small (categoryId : string) (st : State) :
  (List.length (population categoryId st) <= latestItemsLimit)%nat ->
  olderItems categoryId st = [].
Proof.
  intros H. unfold olderItems. apply skipn_all2.
  now rewrite (Permutation_length (sortByDateDesc_perm _)).
Qed.

Lemma NoDup_app_disjoint {A : Type} (l1 l2 : list A) (x : A) :
  NoDup (l1 ++ l2) -> In x l1 -> In x l2 -> False.
Proof.
  induction l1 as [|a l1 IH]; simpl; [contradiction|].
  intros H [->|H1] H2; inversion H as [|? ? Hnotin Hnd]; subst.
  - apply Hnotin, in_or_app. now right.
  - now apply IH.
Qed.

Lemma filter_none {A : Type} (f : A -> bool) (l : list A) :
  (forall a, In a l -> f a = false) -> filter f l = [].
Proof.
  induction l as [|a l IH]; simpl; [reflexivity|].
  intros H. rewrite (H a (or_introl eq_refl)). apply IH. intros b Hb. apply H. now right.
Qed.

Lemma filter_all {A : Type} (f : A -> bool) (l : list A) :
  (forall a, In a l -> f a = true) -> filter f l = l.
Proof.
  induction l as [|a l IH]; simpl; [reflexivity|].
  intros H. rewrite (H a (or_introl eq_refl)). f_equal. apply IH.
  intros b Hb. apply H. now right.
Qed.

Lemma half_le (limit : Z) : 1 <= limit -> Z.max 1 (limit / 2) <= limit.
Proof.
  intros H. assert (limit / 2 <= limit) by (apply Z.div_le_upper_bound; lia). lia.
Qed.

Lemma sample_choice_nil (choose : nat -> list Picture.t -> list Picture.t) (n : nat) :
  sample_choice choose -> choose n [] = [].
Proof. intros H. apply incl_l_nil. apply (H n []). Qed.

Section Sampling.

Variable rnd : Random.
Variable categoryId : string.
Variable limit : Z.
Variable st : State.

Hypothesis draw_in_range : getRandomInt_range (getRandomInt rnd).
Hypothesis latest_choice : sample_choice (chooseLatest rnd).
Hypothesis rest_choice : sample_choice (chooseRest rnd).

(** For a limit of at least 1 the route answers with a batch of documents of
    the matching population, no more of them than the limit; when the
    population fits in the window of recent documents, no more than the
    draw allows. *)
Lemma sampleBatch_subset_bounded :
  1 <= limit ->
  exists batch,
    sampleBatch rnd categoryId limit st = ok (PicturesBody batch) /\
    incl batch (population categoryId st) /\
    Z.of_nat (List.length batch) <= limit /\
    ((List.length (population categoryId st) <= latestItemsLimit)%nat ->
     Z.of_nat (List.length batch) <= Z.max 1 (limit / 2)).
Proof.
  intros Hlimit.
  rewrite sampleBatch_unfold. cbv zeta.
  pose proof (getRandomInt_range_bounds rnd limit draw_in_range) as Hd.
  pose proof (half_le limit Hlimit) as Hhalf.
  set (d := getRandomInt rnd 1 (limit # 2)) in *.
  destruct (latest_choice (Z.to_nat d) (latestWindow categoryId st)) as [Hin1 Hlen1].
  set (latest := chooseLatest rnd (Z.to_nat d) (latestWindow categoryId st)) in *.
  assert (Z.of_nat (List.length latest) <= d) as Hlen1' by lia.
  destruct (d <? 0) eqn:Ed; [apply Z.ltb_lt in Ed; lia|].
  set (rc := limit - Z.of_nat (List.length latest)) in *.
  destruct (rc <? 0) eqn:Erc; [apply Z.ltb_lt in Erc; lia|].
  destruct (rest_choice (Z.to_nat rc) (olderItems categoryId st)) as [Hin2 Hlen2].
  set (chosen := chooseRest rnd (Z.to_nat rc) (olderItems categoryId st)) in *.
  set (rest := filter _ chosen).
  assert (incl rest chosen) as Hsub by apply incl_filter.
  assert (List.length rest <= List.length chosen)%nat as Hlen3
      by apply filter_length_le.
  eexists. split; [reflexivity|]. split; [|split].
  - apply incl_app.
    + eapply incl_tran; [exact Hin1|apply latestWindow_incl].
    + eapply incl_tran; [exact Hsub|].
      eapply incl_tran; [exact Hin2|apply olderItems_incl].
  - rewrite length_app. lia.
  - intros Hsmall. subst rest chosen.
    rewrite (olderItems_small _ _ Hsmall), (sample_choice_nil _ _ rest_choice).
    simpl. rewrite length_app. simpl. lia.
Qed.

Lemma NoDup_map_filter (f : Picture.t -> bool) (l : list Picture.t) :
  NoDup (map Picture._id l) -> NoDup (map Picture._id (filter f l)).
Proof.
  induction l as [|p l IH]; simpl; [constructor|].
  intros H. inversion H as [|? ? Hnotin Hnodup]; subst.
  destruct (f p); simpl; [|now apply IH].
  constructor; [|now apply IH].
  intros Hin. apply Hnotin. apply in_map_iff in Hin as [q [Hq Hin]].
  apply filter_In in Hin as [Hin _]. apply in_map_iff. now exists q.
Qed.

Lemma NoDup_map_app_inv (l1 l2 : list Picture.t) :
  NoDup (map Picture._id (l1 ++ l2)) ->
  NoDup (map Picture._id l1) /\ NoDup (map Picture._id l2).
Proof.
  rewrite map_app. intros H. split.
  - now apply NoDup_app_remove_r in H.
  - now apply NoDup_app_remove_l in H.
Qed.

(** X23. When the store keeps its ids unique and [$sample] returns no
    document twice, no batch for a limit of at least 1 holds an identity
    twice. *)
Lemma sampleBatch_distinct :
  sample_distinct (chooseLatest rnd) ->
  sample_distinct (chooseRest rnd) ->
  NoDup (map Picture._id (pictures st)) ->
  1 <= limit ->
  exists batch,
    sampleBatch rnd categoryId limit st = ok (PicturesBody batch) /\
    NoDup (map Picture._id batch).
Proof.
  intros Hd1 Hd2 Hids Hlimit.
  rewrite sampleBatch_unfold. cbv zeta.
  pose proof (getRandomInt_range_bounds rnd limit draw_in_range) as Hd.
  pose proof (half_le limit Hlimit) as Hhalf.
  set (d := getRandomInt rnd 1 (limit # 2)) in *.
  destruct (latest_choice (Z.to_nat d) (latestWindow categoryId st)) as [_ Hlen1].
  assert (NoDup (map Picture._id (sortByDateDesc (population categoryId st)))) as Hsorted.
  { eapply Permutation_NoDup.
    - apply Permutation_map, Permutation_sym, sortByDateDesc_perm.
    - unfold population. now apply NoDup_map_filter. }
  rewrite <- (firstn_skipn latestItemsLimit (sortByDateDesc _)) in Hsorted.
  apply NoDup_map_app_inv in Hsorted as [Hwin Hold].
  fold (latestWindow categoryId st) in Hwin. fold (olderItems categoryId st) in Hold.
  specialize (Hd1 (Z.to_nat d) _ Hwin).
  set (latest := chooseLatest rnd (Z.to_nat d) (latestWindow categoryId st)) in *.
  destruct (d <? 0) eqn:Ed; [apply Z.ltb_lt in Ed; lia|].
  set (rc := limit - Z.of_nat (List.length latest)) in *.
  destruct (rc <? 0) eqn:Erc; [apply Z.ltb_lt in Erc; lia|].
  specialize (Hd2 (Z.to_nat rc) _ Hold).
  eexists. split; [reflexivity|].
  rewrite map_app. apply NoDup_app.
  - exact Hd1.
  - now apply NoDup_map_filter.
  - intros id Hin1 Hin2. apply in_map_iff in Hin2 as [q [Hq Hin2]].
    apply filter_In in Hin2 as [_ Hnin]. apply negb_true_iff in Hnin.
    rewrite <- Hq in Hin1. apply memId_In in Hin1. congruence.
Qed.

(** The window and the older documents of a category carry pairwise
    different ids when the collection does. *)
Lemma population_unique (c : string) (s : State) :
  NoDup (map Picture._id (pictures s)) ->
  NoDup (map Picture._id (latestWindow c s ++ olderItems c s)).
Proof.
  intros H. unfold latestWindow, olderItems. rewrite firstn_skipn.
  eapply Permutation_NoDup.
  - apply Permutation_map, Permutation_sym, sortByDateDesc_perm.
  - unfold population. now apply NoDup_map_filter.
Qed.

(** A [$sample] asked for at least as many documents as there are returns
    every one of them. *)
Lemma sample_all (choose : nat -> list Picture.t -> list Picture.t) (n : nat)
  (docs : list Picture.t) :
  sample_choice choose -> sample_full choose -> sample_distinct choose ->
  NoDup (map Picture._id docs) ->
  (List.length docs <= n)%nat ->
  incl docs (choose n docs).
Proof.
  intros Hc Hf Hd Hids Hn.
  apply NoDup_length_incl.
  - eapply NoDup_map_inv. now apply Hd.
  - rewrite Hf. lia.
  - apply Hc.
Qed.

(** C4 (amended). When the matching population has fewer documents than
    the limit (ids unique, [$sample] returning as many different documents
    as it is asked for, or all there are), the route does not fail and
    answers with documents of that population only, each once.  It answers
    with every matching document that is not among the 50 most recent, and
    with min(d, w) of the w matching documents among the 50 most recent,
    where d is the draw, between 1 and max(1, floor(limit/2)).  So the whole
    population is returned when w is at most d, and is not promised
    otherwise. *)
Theorem sampleBatch_small_population :
  sample_full (chooseLatest rnd) ->
  sample_full (chooseRest rnd) ->
  sample_distinct (chooseLatest rnd) ->
  sample_distinct (chooseRest rnd) ->
  NoDup (map Picture._id (pictures st)) ->
  Z.of_nat (List.length (population categoryId st)) < limit ->
  let d := getRandomInt rnd 1 (limit # 2) in
  let w := List.length (latestWindow categoryId st) in
  exists batch,
    sampleBatch rnd categoryId limit st = ok (PicturesBody batch) /\
    status (sampleBatch rnd categoryId limit st) = 200 /\
    incl batch (population categoryId st) /\
    NoDup (map Picture._id batch) /\
    (forall p, In p (olderItems categoryId st) -> In p batch) /\
    1 <= d <= Z.max 1 (limit / 2) /\
    List.length batch
    = (Nat.min (Z.to_nat d) w + List.length (olderItems categoryId st))%nat /\
    Z.of_nat (List.length batch) <= limit /\
    ((w <= Z.to_nat d)%nat -> forall p, In p (population categoryId st) -> In p batch).
Proof.
  intros Hfull1 Hfull2 Hdist1 Hdist2 Hids Hsmall d w.
  pose proof (getRandomInt_range_bounds rnd limit draw_in_range) as Hd.
  fold d in Hd.
  pose proof (population_unique categoryId st Hids) as Hu.
  pose proof Hu as Hu'. rewrite map_app in Hu'.
  pose proof (NoDup_app_remove_r _ _ Hu') as Hwin.
  pose proof (NoDup_app_remove_l _ _ Hu') as Hold.
  assert (Hlen : (w + List.length (olderItems categoryId st)
                  = List.length (population categoryId st))%nat).
  { unfold w, latestWindow, olderItems. rewrite <- length_app, firstn_skipn.
    apply Permutation_length, sortByDateDesc_perm. }
  assert (Hpop : forall p, In p (population categoryId st) ->
                           In p (latestWindow categoryId st) \/
                           In p (olderItems categoryId st)).
  { intros p Hp. apply in_app_or. unfold latestWindow, olderItems.
    rewrite firstn_skipn.
    eapply Permutation_in; [apply Permutation_sym, sortByDateDesc_perm|exact Hp]. }
  rewrite sampleBatch_unfold. cbv zeta. fold d.
  destruct (latest_choice (Z.to_nat d) (latestWindow categoryId st)) as [Hin1 _].
  pose proof (Hfull1 (Z.to_nat d) (latestWindow categoryId st)) as Hl1. fold w in Hl1.
  pose proof (Hdist1 (Z.to_nat d) _ Hwin) as Hn1.
  set (latest := chooseLatest rnd (Z.to_nat d) (latestWindow categoryId st)) in *.
  destruct (d <? 0) eqn:Ed; [apply Z.ltb_lt in Ed; lia|].
  set (rc := limit - Z.of_nat (List.length latest)) in *.
  assert (Hrc : (List.length (olderItems categoryId st) <= Z.to_nat rc)%nat) by lia.
  destruct (rc <? 0) eqn:Erc; [apply Z.ltb_lt in Erc; lia|].
  destruct (rest_choice (Z.to_nat rc) (olderItems categoryId st)) as [Hin2 _].
  pose proof (Hfull2 (Z.to_nat rc) (olderItems categoryId st)) as Hl2.
  pose proof (Hdist2 (Z.to_nat rc) _ Hold) as Hn2.
  pose proof (sample_all _ _ _ rest_choice Hfull2 Hdist2 Hold Hrc) as Hall2.
  set (chosen := chooseRest rnd (Z.to_nat rc) (olderItems categoryId st)) in *.
  assert (Hkeep : filter (fun p => negb (memId (Picture._id p) (map Picture._id latest)))
                    chosen = chosen).
  { apply filter_all. intros p Hp. apply negb_true_iff.
    destruct (memId (Picture._id p) (map Picture._id latest)) eqn:E; [|reflexivity].
    exfalso. apply memId_In in E.
    apply (NoDup_app_disjoint _ _ (Picture._id p) Hu').
    - apply in_map_iff in E as [q [Hq Hqin]]. rewrite <- Hq.
      apply in_map. now apply Hin1.
    - apply in_map. now apply Hin2. }
  rewrite Hkeep. exists (latest ++ chosen)%list.
  split; [reflexivity|]. split; [reflexivity|].
  split; [|split; [|split; [|split; [exact Hd|split; [|split]]]]].
  - apply incl_app.
    + eapply incl_tran; [exact Hin1|apply latestWindow_incl].
    + eapply incl_tran; [exact Hin2|apply olderItems_incl].
  - rewrite map_app. apply NoDup_app; [exact Hn1|exact Hn2|].
    intros x H1 H2. apply (NoDup_app_disjoint _ _ x Hu').
    + apply in_map_iff in H1 as [q [Hq Hqin]]. rewrite <- Hq.
      apply in_map. now apply Hin1.
    + apply in_map_iff in H2 as [q [Hq Hqin]]. rewrite <- Hq.
      apply in_map. now apply Hin2.
  - intros p Hp. apply in_or_app. right. now apply Hall2.
  - rewrite length_app, Hl1, Hl2. lia.
  - rewrite length_app, Hl1, Hl2. lia.
  - intros Hw p Hp. apply in_or_app. destruct (Hpop p Hp) as [H|H].
    + left. now apply (sample_all _ _ _ latest_choice Hfull1 Hdist1 Hwin Hw).
    + right. now apply Hall2.
Qed.

End Sampling.


Lemma rndFirst_range : getRandomInt_range (getRandomInt rndFirst).
Proof. intros lo hi. simpl. lia. Qed.

Lemma firstn_choice : sample_choice (fun n docs => firstn n docs).
Proof.
  intros n docs. split; [|apply firstn_le_length].
  intros p H. rewrite <- (firstn_skipn n docs). apply in_or_app. now left.
Qed.

Lemma repeat_choice :
  sample_choice (fun n docs => match docs with d :: _ => repeat d n | [] => [] end).
Proof.
  intros n [|d docs]; split.
  - apply incl_refl.
  - apply Nat.le_0_l.
  - intros p H. apply repeat_spec in H. subst. now left.
  - now rewrite repeat_length.
Qed.

Lemma firstn_full : sample_full (fun n docs => firstn n docs).
Proof. intros n docs. apply length_firstn. Qed.

Lemma firstn_distinct : sample_distinct (fun n docs => firstn n docs).
Proof.
  intros n docs H. rewrite <- (firstn_skipn n docs), map_app in H.
  now apply NoDup_app_remove_r in H.
Qed.

Lemma sampleBatch_small_population_witness :
  Z.of_nat (List.length (population "c1" store1)) < 3 /\
  exists batch,
    sampleBatch rndFirst "c1" 3 store1 = ok (PicturesBody batch) /\
    incl batch (population "c1" store1) /\
    List.length batch = 1%nat.
Proof.
  split; [simpl; lia|].
  destruct (sampleBatch_small_population rndFirst "c1" 3 store1 rndFirst_range
              firstn_choice firstn_choice firstn_full firstn_full
              firstn_distinct firstn_distinct)
    as [batch [H1 [_ [H2 [_ [_ [_ [H3 _]]]]]]]].
  - simpl. repeat constructor; simpl; intros H;
      repeat (destruct H as [H|H]; [discriminate|]); exact H.
  - simpl. lia.
  - exists batch. split; [exact H1|]. split; [exact H2|exact H3].
Defined.

(** C4 (as stated). Two pictures match, three are asked for: the draw is 1,
    the first query returns one picture, the second query skips the window
    both pictures are in, and the batch is the most recent picture alone. *)
Lemma sample_small_population_counterexample :
  Z.of_nat (List.length (population "c1" store1)) < 3 /\
  getRandomInt_range (getRandomInt rndFirst) /\
  sample_choice (chooseLatest rndFirst) /\
  sample_choice (chooseRest rndFirst) /\
  sampleBatch rndFirst "c1" 3 store1 = ok (PicturesBody [cat]) /\
  ~ returns_whole_population rndFirst "c1" 3 store1.
Proof.
  split; [simpl; lia|]. split; [exact rndFirst_range|].
  split; [exact firstn_choice|]. split; [exact firstn_choice|].
  split; [reflexivity|].
  intros [batch [H1 H2]].
  assert (sampleBatch rndFirst "c1" 3 store1 = ok (PicturesBody [cat])) as E
      by reflexivity.
  rewrite E in H1. injection H1 as <-.
  specialize (H2 dog). simpl in H2.
  destruct H2 as [H2|[]]; [now left|discriminate].
Qed.

(** C7. For a limit of 0 or less the route has no early return: the draw
    is 1, so the first query still asks for one document, and the second
    query asks for [limit - |latest|] documents.  That size is negative as
    soon as the limit is negative or the first query found a document; the
    store refuses it and the route answers with status 500. *)
Theorem sampleBatch_nonpositive_limit (rnd : Random) (categoryId : string) (limit : Z)
  (st : State) :
  getRandomInt_range (getRandomInt rnd) ->
  limit <= 0 ->
  limit < 0 \/ chooseLatest rnd 1 (latestWindow categoryId st) <> [] ->
  sampleBatch rnd categoryId limit st = negativeSampleSize /\
  status (sampleBatch rnd categoryId limit st) = 500.
Proof.
  intros Hrange Hlimit Hcase.
  assert (sampleBatch rnd categoryId limit st = negativeSampleSize) as E.
  { rewrite sampleBatch_unfold. cbv zeta.
    pose proof (getRandomInt_range_bounds rnd limit Hrange) as Hd.
    assert (limit / 2 <= 0) by (apply Z.div_le_upper_bound; lia).
    assert (getRandomInt rnd 1 (limit # 2) = 1) as -> by lia.
    change (1 <? 0) with false. change (Z.to_nat 1) with 1%nat. cbv iota.
    destruct (limit - Z.of_nat _ <? 0) eqn:Erc; [reflexivity|].
    apply Z.ltb_ge in Erc. exfalso.
    destruct Hcase as [Hneg|Hsome]; [lia|].
    destruct (chooseLatest rnd 1 (latestWindow categoryId st)); [congruence|].
    simpl in Erc. lia. }
  rewrite E. split; reflexivity.
Qed.

Lemma sampleBatch_nonpositive_limit_witness :
  chooseLatest rndFirst 1 (latestWindow "c1" store1) = [cat] /\
  sampleBatch rndFirst "c1" 0 store1 = negativeSampleSize /\
  sampleBatch rndFirst "c1" (-1) (mkState [] [] []) = negativeSampleSize.
Proof.
  split; [reflexivity|]. split.
  - apply (sampleBatch_nonpositive_limit rndFirst "c1" 0 store1 rndFirst_range).
    + lia.
    + right. discriminate.
  - apply (sampleBatch_nonpositive_limit rndFirst "c1" (-1) (mkState [] [] [])
             rndFirst_range).
    + lia.
    + left. lia.
Defined.

(** C2. The fresh set is passed through a [Set] of the objects the query
    returned.  These objects are pairwise different, so a document that
    [$sample] returned twice stays twice in the set and in the batch: with a
    limit of 4 and a first query that returns the same picture twice, the
    batch holds one identity twice.  With a limit of 0 and one matching
    picture the route does not answer with a batch at all. *)
Theorem sampleBatch_repeats_identity :
  getRandomInt_range (getRandomInt rndRepeat) /\
  sample_choice (chooseLatest rndRepeat) /\
  sample_choice (chooseRest rndRepeat) /\
  chooseLatest rndRepeat 2 (latestWindow "c1" store1) = [cat; cat] /\
  Array_from_Set (materialize [cat; cat]) = materialize [cat; cat] /\
  sampleBatch rndRepeat "c1" 4 store1 = ok (PicturesBody [cat; cat]) /\
  ~ NoDup (map Picture._id [cat; cat]) /\
  sampleBatch rndFirst "c1" 0 store1 = negativeSampleSize.
Proof.
  split; [exact rndFirst_range|]. split; [exact repeat_choice|].
  split; [exact firstn_choice|]. split; [reflexivity|]. split; [reflexivity|].
  split; [reflexivity|]. split; [|reflexivity].
  intros H. inversion H as [|? ? Hnotin _]. apply Hnotin. now left.
Qed.

(** ** Examples *)

Example parseMatches_spec_example :
  parseMatches "DOG, Pet ,cat" = ["dog"; "pet"; "cat"].
Proof. reflexivity. Qed.

Example getExtension_last_part : getExtension "photo.tar.GZ" = inr "GZ".
Proof. reflexivity. Qed.

Example targetFilename_lower_case : targetFilenameOf uploadJpg = inr "7c9e.jpg".
Proof. reflexivity. Qed.

(** A successful create renames the staged upload and stores the record. *)
Example createPicture_success :
  createPicture env1 (Some uploadJpg) (Some "Dog, pet") (Some "c1") store1
  = (mkState [animals; plants]
       [dog; cat; fern;
        Picture.mk "5f00000000000000000000aa" "c1" ["dog"; "pet"]
          "/uploads/7c9e.jpg" 1700000000000]
       [ "/srv/app/public/uploads/7c9e.jpg";
         "/srv/app/public/uploads/a1.png"; "/srv/app/public/uploads/a2.png";
         "/srv/app/public/uploads/b1.jpg"; "/srv/app/public/uploads/b2.jpg";
         "/srv/app/public/uploads/b3.jpg" ],
     Responded (ok (PictureBody
       (Some (Picture.mk "5f00000000000000000000aa" "c1" ["dog"; "pet"]
                "/uploads/7c9e.jpg" 1700000000000))))).
Proof. reflexivity. Qed.

(** Deleting the first category removes its two pictures and three files. *)
Example deleteCategory_store1 :
  deleteCategory env1 "c1" store1
  = (mkState [plants] [fern]
       [ "/srv/app/public/uploads/a2.png"; "/srv/app/public/uploads/b3.jpg";
         "/srv/app/public/uploads/7c9e" ],
     Responded (ok (MessageBody "Success!"))).
Proof. reflexivity. Qed.

(** A limit of 1 gives the most recent picture. *)
Example sampleBatch_one :
  sampleBatch rndFirst "c1" 1 store1 = ok (PicturesBody [cat]).
Proof. reflexivity. Qed.

(** * Further properties *)

(** ** [split], [getExtension] and [parseMatches] *)

Lemma split_no_sep (sep : ascii) (s : string) :
  occurrences sep s = O -> split sep s = [s].
Proof.
  induction s as [|c s IH]; simpl; [reflexivity|].
  destruct (Ascii.eqb c sep); [discriminate|].
  intros H. now rewrite (IH H).
Qed.

(** No piece of a split contains the separator. *)
Lemma split_pieces_no_sep (sep : ascii) (s : string) :
  Forall (fun piece => occurrences sep piece = O) (split sep s).
Proof.
  induction s as [|c s IH]; simpl; [repeat constructor|].
  destruct (Ascii.eqb c sep) eqn:E; [constructor; [reflexivity|exact IH]|].
  destruct (split sep s) as [|piece pieces]; simpl.
  - repeat constructor. simpl. now rewrite E.
  - inversion IH as [|? ? H1 H2]; subst. constructor; [|assumption].
    simpl. now rewrite E.
Qed.

(** Joining the pieces with the separator gives the text back. *)
Lemma join_split (sep : ascii) (s : string) : join sep (split sep s) = s.
Proof.
  induction s as [|c s IH]; simpl; [reflexivity|].
  destruct (Ascii.eqb c sep) eqn:E.
  - apply Ascii.eqb_eq in E. subst c.
    pose proof (split_nonempty sep s) as Hne.
    destruct (split sep s) as [|piece pieces]; [contradiction|].
    simpl in *. now rewrite IH.
  - destruct (split sep s) as [|piece pieces] eqn:Es; simpl in *.
    + now subst.
    + destruct pieces; simpl in *; now rewrite <- IH.
Qed.

Lemma last_split (sep : ascii) (s : string) :
  occurrences sep s <> O ->
  exists stem, s = stem ++ String sep (last (split sep s) EmptyString).
Proof.
  induction s as [|c s IH]; simpl; [contradiction|].
  destruct (Ascii.eqb c sep) eqn:E.
  - intros _. apply Ascii.eqb_eq in E. subst c.
    destruct (Nat.eq_dec (occurrences sep s) 0) as [Hz|Hnz].
    + rewrite (split_no_sep _ _ Hz). exists EmptyString. reflexivity.
    + destruct (IH Hnz) as [stem Hstem].
      pose proof (split_nonempty sep s) as Hne.
      destruct (split sep s) as [|piece pieces]; [contradiction|].
      exists (String sep stem). simpl. f_equal. exact Hstem.
  - intros Hnz. destruct (IH Hnz) as [stem Hstem].
    pose proof (split_length sep s) as Hlen.
    destruct (split sep s) as [|piece pieces]; [discriminate|].
    destruct pieces as [|piece' pieces]; [simpl in Hlen; lia|].
    exists (String c stem). simpl. f_equal. exact Hstem.
Qed.

(** X1. [getExtension] throws exactly when the name has no dot; otherwise
    the name is some stem, a dot, and the extension returned, and the
    extension has no dot in it. *)
Theorem getExtension_decomposes (path : string) :
  match getExtension path with
  | inl e => e = Error "Unknown file type!" /\ occurrences "." path = O
  | inr ext =>
      occurrences "." ext = O /\ exists stem, path = stem ++ String "." ext
  end.
Proof.
  destruct (Nat.eq_dec (occurrences "." path) 0) as [Hz|Hnz].
  - rewrite (getExtension_no_dot _ Hz). split; [reflexivity|assumption].
  - rewrite (getExtension_dot _ Hnz). split; [|now apply last_split].
    pose proof (split_pieces_no_sep "." path) as Hall.
    rewrite Forall_forall in Hall. apply Hall.
    pose proof (split_nonempty "." path) as Hne.
    destruct (split "." path) as [|piece pieces] eqn:E; [contradiction|].
    rewrite <- E. rewrite E.
    destruct (exists_last (l := piece :: pieces)) as [l' [a Ha]]; [discriminate|].
    rewrite Ha, last_last. apply in_or_app. right. now left.
Qed.

Lemma lowerChar_space (c : ascii) : isWhiteSpace (lowerChar c) = isWhiteSpace c.
Proof. destruct c as [[] [] [] [] [] [] [] []]; reflexivity. Qed.

Lemma lowerChar_sep (c : ascii) : Ascii.eqb (lowerChar c) "," = Ascii.eqb c ",".
Proof. destruct c as [[] [] [] [] [] [] [] []]; reflexivity. Qed.

Lemma lowerChar_idem (c : ascii) : lowerChar (lowerChar c) = lowerChar c.
Proof. destruct c as [[] [] [] [] [] [] [] []]; reflexivity. Qed.

Lemma toLowerCase_idem (s : string) : toLowerCase (toLowerCase s) = toLowerCase s.
Proof.
  induction s as [|c s IH]; simpl; [reflexivity|]. now rewrite lowerChar_idem, IH.
Qed.

Lemma toLowerCase_trimStart (s : string) :
  trimStart (toLowerCase s) = toLowerCase (trimStart s).
Proof.
  induction s as [|c s IH]; simpl; [reflexivity|].
  rewrite lowerChar_space. destruct (isWhiteSpace c); [exact IH|reflexivity].
Qed.

Lemma toLowerCase_trimEnd (s : string) :
  trimEnd (toLowerCase s) = toLowerCase (trimEnd s).
Proof.
  induction s as [|c s IH]; simpl; [reflexivity|].
  rewrite IH, lowerChar_space.
  destruct (trimEnd s); simpl; [destruct (isWhiteSpace c)|]; reflexivity.
Qed.

Lemma toLowerCase_trim (s : string) : trim (toLowerCase s) = toLowerCase (trim s).
Proof. unfold trim. now rewrite toLowerCase_trimStart, toLowerCase_trimEnd. Qed.

Lemma toLowerCase_split (s : string) :
  split "," (toLowerCase s) = map toLowerCase (split "," s).
Proof.
  induction s as [|c s IH]; simpl; [reflexivity|].
  rewrite lowerChar_sep, IH.
  destruct (Ascii.eqb c ","); simpl; [reflexivity|].
  destruct (split "," s); reflexivity.
Qed.

Lemma occurrences_toLowerCase (s : string) :
  occurrences "," (toLowerCase s) = occurrences "," s.
Proof.
  induction s as [|c s IH]; simpl; [reflexivity|].
  rewrite lowerChar_sep, IH. reflexivity.
Qed.

Lemma occurrences_trimStart (sep : ascii) (s : string) :
  (occurrences sep (trimStart s) <= occurrences sep s)%nat.
Proof.
  induction s as [|c s IH]; simpl; [lia|].
  destruct (isWhiteSpace c); simpl; destruct (Ascii.eqb c sep); lia.
Qed.

Lemma occurrences_trimEnd (sep : ascii) (s : string) :
  (occurrences sep (trimEnd s) <= occurrences sep s)%nat.
Proof.
  induction s as [|c s IH]; simpl; [lia|].
  destruct (trimEnd s) as [|a t] eqn:E.
  - destruct (isWhiteSpace c); simpl; destruct (Ascii.eqb c sep); lia.
  - change (occurrences sep (String c (String a t)))
      with (if Ascii.eqb c sep then S (occurrences sep (String a t))
            else occurrences sep (String a t)).
    destruct (Ascii.eqb c sep); lia.
Qed.

Lemma trimEnd_no_trailing_space (s : string) : endsWithSpace (trimEnd s) = false.
Proof.
  induction s as [|c s IH]; simpl; [reflexivity|].
  destruct (trimEnd s) as [|a t] eqn:E.
  - destruct (isWhiteSpace c) eqn:W; simpl; [reflexivity|exact W].
  - exact IH.
Qed.

Lemma trimStart_no_leading_space (s : string) : startsWithSpace (trimStart s) = false.
Proof.
  induction s as [|c s IH]; simpl; [reflexivity|].
  destruct (isWhiteSpace c) eqn:W; [exact IH|simpl; exact W].
Qed.

(** [trimEnd] removes characters from the end only. *)
Lemma trimEnd_first (s : string) :
  startsWithSpace s = false -> startsWithSpace (trimEnd s) = false.
Proof.
  destruct s as [|c s]; simpl; [reflexivity|].
  intros W. destruct (trimEnd s); [rewrite W|]; simpl; exact W.
Qed.

Lemma toLowerCase_startsWithSpace (s : string) :
  startsWithSpace (toLowerCase s) = startsWithSpace s.
Proof. destruct s as [|c s]; simpl; [reflexivity|apply lowerChar_space]. Qed.

Lemma toLowerCase_endsWithSpace (s : string) :
  endsWithSpace (toLowerCase s) = endsWithSpace s.
Proof.
  induction s as [|c s IH]; simpl; [reflexivity|].
  destruct s as [|a t]; simpl in *; [apply lowerChar_space|exact IH].
Qed.

Lemma toLowerCase_noUpper (s : string) : noUpper (toLowerCase s) = true.
Proof.
  induction s as [|c s IH]; simpl; [reflexivity|].
  now rewrite lowerChar_not_upper, IH.
Qed.

(** X2. Every tag that [parseMatches] returns is in normal form: it has no
    comma, no upper-case letter and no white space at either end. *)
Theorem parseMatches_normal (s : string) :
  forallb normalEntry (parseMatches s) = true.
Proof.
  apply forallb_forall. intros entry Hin.
  apply parseMatches_entries in Hin as [piece [Hpiece ->]].
  pose proof (split_pieces_no_sep "," s) as Hall.
  rewrite Forall_forall in Hall. specialize (Hall piece Hpiece).
  unfold normalEntry.
  rewrite toLowerCase_noUpper, toLowerCase_startsWithSpace, toLowerCase_endsWithSpace.
  rewrite occurrences_toLowerCase.
  unfold trim.
  rewrite trimEnd_no_trailing_space.
  rewrite (trimEnd_first _ (trimStart_no_leading_space piece)).
  assert (occurrences "," (trimEnd (trimStart piece)) = O) as ->.
  { pose proof (occurrences_trimEnd "," (trimStart piece)).
    pose proof (occurrences_trimStart "," piece). lia. }
  reflexivity.
Qed.

(** X3. Tags are read without regard to case: a text and its lower-case
    form give the same tags. *)
Theorem parseMatches_case_insensitive (s : string) :
  parseMatches (toLowerCase s) = parseMatches s.
Proof.
  unfold parseMatches. rewrite toLowerCase_split, map_map.
  apply map_ext. intros piece. now rewrite toLowerCase_trim, toLowerCase_idem.
Qed.

Lemma split_app (sep : ascii) (piece rest : string) :
  occurrences sep piece = O ->
  split sep (piece ++ String sep rest) = piece :: split sep rest.
Proof.
  induction piece as [|c piece IH]; simpl.
  - intros _. now rewrite Ascii.eqb_refl.
  - destruct (Ascii.eqb c sep); [discriminate|].
    intros H. now rewrite (IH H).
Qed.

Lemma split_join (sep : ascii) (pieces : list string) :
  pieces <> [] ->
  Forall (fun piece => occurrences sep piece = O) pieces ->
  split sep (join sep pieces) = pieces.
Proof.
  induction pieces as [|piece pieces IH]; [contradiction|].
  intros _ Hall. inversion Hall as [|? ? H1 H2]; subst.
  destruct pieces as [|piece' pieces].
  - simpl. now apply split_no_sep.
  - change (join sep (piece :: piece' :: pieces))
      with (piece ++ String sep (join sep (piece' :: pieces))).
    rewrite (split_app _ _ _ H1). f_equal. apply IH; [discriminate|assumption].
Qed.

Lemma toLowerCase_lower (s : string) : noUpper s = true -> toLowerCase s = s.
Proof.
  induction s as [|c s IH]; simpl; [reflexivity|].
  intros H. apply andb_true_iff in H as [H1 H2].
  rewrite (IH H2). f_equal. unfold lowerChar. unfold isUpper in H1.
  apply negb_true_iff in H1. now rewrite H1.
Qed.

Lemma trimStart_id (s : string) : startsWithSpace s = false -> trimStart s = s.
Proof. destruct s as [|c s]; simpl; [reflexivity|]. now intros ->. Qed.

Lemma trimEnd_id (s : string) : endsWithSpace s = false -> trimEnd s = s.
Proof.
  induction s as [|c s IH]; [reflexivity|].
  destruct s as [|a t].
  - simpl. now intros ->.
  - intros H. change (endsWithSpace (String a t) = false) in H.
    change (trimEnd (String c (String a t)))
      with (match trimEnd (String a t) with
            | EmptyString => if isWhiteSpace c then EmptyString else String c EmptyString
            | u => String c u
            end).
    now rewrite (IH H).
Qed.

Lemma normalEntry_fixed (entry : string) :
  normalEntry entry = true ->
  occurrences "," entry = O /\ toLowerCase (trim entry) = entry.
Proof.
  unfold normalEntry. intros H.
  apply andb_true_iff in H as [H H4]. apply andb_true_iff in H as [H H3].
  apply andb_true_iff in H as [H1 H2].
  apply Nat.eqb_eq in H1. apply negb_true_iff in H3, H4.
  split; [assumption|]. unfold trim.
  now rewrite (trimStart_id _ H3), (trimEnd_id _ H4), (toLowerCase_lower _ H2).
Qed.

(** X4. Writing ASCII tags that are in normal form as a comma-separated
    text and parsing the text gives the tags back, in order. *)
Theorem parseMatches_join (tags : list string) :
  tags <> [] ->
  forallb asciiOnly tags = true ->
  forallb normalEntry tags = true ->
  parseMatches (join "," tags) = tags.
Proof.
  intros Hne _ Hall. rewrite forallb_forall in Hall.
  unfold parseMatches. rewrite split_join; [|assumption|].
  - rewrite <- (map_id tags) at 2. apply map_ext_in.
    intros entry Hin. now apply normalEntry_fixed, Hall.
  - apply Forall_forall. intros entry Hin. now apply normalEntry_fixed, Hall.
Qed.

Lemma parseMatches_join_witness :
  parseMatches (join "," ["cat"; "animal"; "big cat"]) = ["cat"; "animal"; "big cat"].
Proof.
  apply parseMatches_join; [discriminate|reflexivity|reflexivity].
Defined.

(** ** The create routes *)

Lemma append_cons_neq (a b : string) (c : ascii) (t : string) :
  a ++ b ++ String c t <> a ++ b.
Proof.
  induction a as [|x a IH]; simpl.
  - induction b as [|y b IHb]; simpl; [discriminate|].
    intros [= H]. now apply IHb.
  - intros [= H]. now apply IH.
Qed.

Lemma rename_success (oldPath newPath : string) (fs : list string) :
  In oldPath fs ->
  rename oldPath newPath fs
  = (newPath :: removeFile newPath (removeFile oldPath fs), None).
Proof.
  intros H. unfold rename. apply existsFile_In in H. now rewrite H.
Qed.

Lemma rename_failure (oldPath newPath : string) (fs : list string) :
  ~ In oldPath fs -> rename oldPath newPath fs = (fs, Some (ENOENT oldPath)).
Proof.
  intros H. unfold rename. destruct (existsFile oldPath fs) eqn:E; [|reflexivity].
  apply existsFile_In in E. contradiction.
Qed.

(** The disk after a rename that passed: the new path, and every other path
    but the old one. *)
Lemma In_renamed (f oldPath newPath : string) (fs : list string) :
  In f (newPath :: removeFile newPath (removeFile oldPath fs)) <->
  f = newPath \/ (In f fs /\ f <> oldPath).
Proof.
  simpl. rewrite !In_removeFile. split.
  - intros [H|[[H1 H2] H3]]; [left; now symmetry|right; tauto].
  - intros [H|[H1 H2]]; [left; now symmetry|].
    destruct (string_dec f newPath) as [E|E]; [left; now symmetry|right; tauto].
Qed.

Lemma targetFilenameOf_dot (img : File) :
  occurrences "." (originalname img) <> O ->
  exists ext,
    getExtension (originalname img) = inr ext /\
    targetFilenameOf img = inr (filename img ++ String "." (toLowerCase ext)).
Proof.
  intros H. exists (last (split "." (originalname img)) EmptyString).
  unfold targetFilenameOf. rewrite (getExtension_dot _ H). split; reflexivity.
Qed.

(** X5. [createCategory] on a staged upload whose declared name has an
    extension, with an insert that reaches the store: the staged file is
    renamed to its generated name plus the lower-case extension, the new
    category is appended to the collection and sent back with status 200; its
    imageUrl leads to the renamed file, the staged path is gone and no other
    file or record is touched. *)
Theorem createCategory_success (env : Env) (img : File) (title : option string)
  (st : State) :
  saveFails env = false ->
  occurrences "." (originalname img) <> O ->
  In (uploadDir env ++ filename img) (files st) ->
  exists ext,
    getExtension (originalname img) = inr ext /\
    let c := Category.mk (newId env) title
               ("/uploads/" ++ filename img ++ "." ++ toLowerCase ext) (now env) in
    let r := createCategory env (Some img) title st in
    snd r = Responded (ok (CategoryBody c)) /\
    categories (fst r) = (categories st ++ [c])%list /\
    pictures (fst r) = pictures st /\
    In (getLocalPath env (Category.imageUrl c)) (files (fst r)) /\
    ~ In (uploadDir env ++ filename img) (files (fst r)) /\
    (forall f, In f (files (fst r)) <->
               f = getLocalPath env (Category.imageUrl c) \/
               (In f (files st) /\ f <> uploadDir env ++ filename img)).
Proof.
  intros Hsave Hdot Hstaged.
  destruct (targetFilenameOf_dot img Hdot) as [ext [Hext Hname]].
  exists ext. split; [exact Hext|]. cbv zeta.
  unfold createCategory. cbn [fileOf bind ret]. rewrite Hname. cbn [bind ret].
  rewrite (rename_success _ _ _ Hstaged).
  unfold Categories.save. rewrite Hsave.
  cbn [fst snd categories pictures files Category.imageUrl].
  change ("/uploads/" ++ filename img ++ "." ++ toLowerCase ext)
    with ("/uploads/" ++ (filename img ++ String "." (toLowerCase ext))).
  rewrite getLocalPath_upload.
  split; [reflexivity|]. split; [reflexivity|]. split; [reflexivity|].
  split; [now left|]. split.
  - intros H. apply In_renamed in H as [H|[_ H]]; [|now apply H].
    symmetry in H. revert H. apply append_cons_neq.
  - intros f. apply In_renamed.
Qed.

Lemma createCategory_success_witness :
  exists c,
    snd (createCategory env1 (Some uploadJpg) (Some "Birds") store1)
    = Responded (ok (CategoryBody c)) /\
    Category.imageUrl c = "/uploads/7c9e.jpg".
Proof.
  destruct (createCategory_success env1 uploadJpg (Some "Birds") store1)
    as [ext [Hext [H1 _]]].
  - reflexivity.
  - discriminate.
  - simpl. tauto.
  - injection Hext as <-. eexists. split; [exact H1|reflexivity].
Defined.

(** X6. [createPicture] with a non-empty [matches] text, the id of an
    existing category and a staged upload whose declared name has an
    extension, with an insert that reaches the store: the new picture carries
    the category id and the parsed tags, is appended to the collection and
    sent back with status 200; its imageUrl leads to the renamed file, the
    staged path is gone and no other file or record is touched. *)
Theorem createPicture_success_general (env : Env) (img : File) (m cid : string)
  (category : Category.t) (st : State) :
  saveFails env = false ->
  m <> EmptyString ->
  Categories.findById cid (categories st) = Some category ->
  occurrences "." (originalname img) <> O ->
  In (uploadDir env ++ filename img) (files st) ->
  exists ext,
    getExtension (originalname img) = inr ext /\
    let p := Picture.mk (newId env) cid (parseMatches m)
               ("/uploads/" ++ filename img ++ "." ++ toLowerCase ext) (now env) in
    let r := createPicture env (Some img) (Some m) (Some cid) st in
    snd r = Responded (ok (PictureBody (Some p))) /\
    pictures (fst r) = (pictures st ++ [p])%list /\
    categories (fst r) = categories st /\
    In (getLocalPath env (Picture.imageUrl p)) (files (fst r)) /\
    ~ In (uploadDir env ++ filename img) (files (fst r)) /\
    (forall f, In f (files (fst r)) <->
               f = getLocalPath env (Picture.imageUrl p) \/
               (In f (files st) /\ f <> uploadDir env ++ filename img)).
Proof.
  intros Hsave Hm Hcat Hdot Hstaged.
  destruct (targetFilenameOf_dot img Hdot) as [ext [Hext Hname]].
  exists ext. split; [exact Hext|]. cbv zeta.
  unfold createPicture. cbn [parseMatches_field ret findCategoryById findCategory].
  assert (falsy (Some m) = false) as -> by (destruct m; [contradiction|reflexivity]).
  rewrite Hcat, settle_found, Hname. unfold fsRenameLocal.
  rewrite (rename_success _ _ _ Hstaged).
  unfold Pictures.save. rewrite Hsave.
  cbn [fst snd categories pictures files Picture.imageUrl].
  change ("/uploads/" ++ filename img ++ "." ++ toLowerCase ext)
    with ("/uploads/" ++ (filename img ++ String "." (toLowerCase ext))).
  rewrite getLocalPath_upload.
  split; [reflexivity|]. split; [reflexivity|]. split; [reflexivity|].
  split; [now left|]. split.
  - intros H. apply In_renamed in H as [H|[_ H]]; [|now apply H].
    symmetry in H. revert H. apply append_cons_neq.
  - intros f. apply In_renamed.
Qed.

Lemma createPicture_success_general_witness :
  exists p,
    snd (createPicture env1 (Some uploadJpg) (Some "Dog, pet") (Some "c1") store1)
    = Responded (ok (PictureBody (Some p))) /\
    Picture.matches p = ["dog"; "pet"] /\
    Picture.imageUrl p = "/uploads/7c9e.jpg".
Proof.
  destruct (createPicture_success_general env1 uploadJpg "Dog, pet" "c1" animals store1)
    as [ext [Hext [H1 _]]].
  - reflexivity.
  - discriminate.
  - reflexivity.
  - discriminate.
  - simpl. tauto.
  - injection Hext as <-. eexists. split; [exact H1|]. split; reflexivity.
Defined.

(** X7. The create routes change the stores only when they answer 200: on
    every other outcome (an exception, status 400, a failed rename) no
    file is renamed and no record is inserted. *)
Theorem create_changes_only_on_success (env : Env) (image : option File)
  (title matches categoryId : option string) (st : State) :
  (fst (createCategory env image title st) = st \/
   succeeded (snd (createCategory env image title st))) /\
  (fst (createPicture env image matches categoryId st) = st \/
   succeeded (snd (createPicture env image matches categoryId st))).
Proof.
  split.
  - unfold createCategory.
    destruct (img <- fileOf image;; name <- targetFilenameOf img;; ret (img, name))%throws
      as [e|[img name]]; [now left|].
    destruct (rename _ _ _) as [fs [err|]]; [now left|].
    right. eexists. reflexivity.
  - unfold createPicture.
    destruct (parseMatches_field matches); [now left|].
    destruct image as [img|]; [|now left].
    destruct (falsy matches); [now left|].
    destruct (findCategoryById _ _ _) as [[c|]|e]; [|now left|now left].
    destruct (targetFilenameOf img); [now left|].
    destruct (fsRenameLocal _ _ _ _) as [fs [err|]]; [now left|].
    right. eexists. reflexivity.
Qed.

(** X8. When the staged upload is not on disk the rename fails, and both
    create routes answer 500 with the message of the error and leave the
    stores as they were. *)
Theorem create_rename_failure (env : Env) (img : File) (title : option string)
  (m cid : string) (category : Category.t) (st : State) :
  occurrences "." (originalname img) <> O ->
  ~ In (uploadDir env ++ filename img) (files st) ->
  m <> EmptyString ->
  Categories.findById cid (categories st) = Some category ->
  createCategory env (Some img) title st
  = (st, Responded (mkResponse 500
           (ErrorBody (message (ENOENT (uploadDir env ++ filename img)))))) /\
  createPicture env (Some img) (Some m) (Some cid) st
  = (st, Responded (mkResponse 500
           (ErrorBody (message (ENOENT (uploadDir env ++ filename img)))))).
Proof.
  intros Hdot Hstaged Hm Hcat.
  destruct (targetFilenameOf_dot img Hdot) as [ext [_ Hname]].
  split.
  - unfold createCategory. cbn [fileOf bind ret]. rewrite Hname. cbn [bind ret].
    now rewrite (rename_failure _ _ _ Hstaged).
  - unfold createPicture. cbn [parseMatches_field ret findCategoryById findCategory].
    assert (falsy (Some m) = false) as -> by (destruct m; [contradiction|reflexivity]).
    rewrite Hcat, settle_found, Hname. unfold fsRenameLocal.
    now rewrite (rename_failure _ _ _ Hstaged).
Qed.

Lemma create_rename_failure_witness :
  createCategory env1 (Some (mkFile "0000" "x.png")) None store1
  = (store1, Responded (mkResponse 500
       (ErrorBody "ENOENT: no such file or directory, /srv/app/public/uploads/0000"))).
Proof.
  apply (create_rename_failure env1 (mkFile "0000" "x.png") None "dog" "c1" animals store1).
  - discriminate.
  - simpl. intros H. repeat (destruct H as [H|H]; [discriminate|]). exact H.
  - discriminate.
  - reflexivity.
Defined.

(** ** The update route *)

Lemma findByIdAndUpdate_unknown (id : string) (u : Pictures.patch) (l : list Picture.t) :
  (forall p, In p l -> Picture._id p <> id) -> Pictures.findByIdAndUpdate id u l = l.
Proof.
  unfold Pictures.findByIdAndUpdate. intros H.
  rewrite <- (map_id l) at 2. apply map_ext_in. intros p Hp.
  apply H in Hp. apply String.eqb_neq in Hp. now rewrite Hp.
Qed.

Lemma Pictures_findById_None (id : string) (l : list Picture.t) :
  Pictures.findById id l = None <-> forall p, In p l -> Picture._id p <> id.
Proof.
  unfold Pictures.findById. split.
  - intros H p Hp. apply (find_none _ _ H) in Hp. now apply String.eqb_neq.
  - intros H. induction l as [|p l IH]; simpl; [reflexivity|].
    destruct (String.eqb (Picture._id p) id) eqn:E.
    + apply String.eqb_eq in E. exfalso. apply (H p); simpl; auto.
    + apply IH. intros q Hq. apply H. simpl; auto.
Qed.

(** What [findByIdAndUpdate] keeps: the ids, categories and dates of all
    documents, in order, and every document with another id. *)
Lemma findByIdAndUpdate_frame (id : string) (u : Pictures.patch) (l : list Picture.t) :
  map Picture._id (Pictures.findByIdAndUpdate id u l) = map Picture._id l /\
  map Picture.categoryId (Pictures.findByIdAndUpdate id u l) = map Picture.categoryId l /\
  map Picture.dateAdded (Pictures.findByIdAndUpdate id u l) = map Picture.dateAdded l /\
  (forall q, Picture._id q <> id ->
             (In q (Pictures.findByIdAndUpdate id u l) <-> In q l)).
Proof.
  unfold Pictures.findByIdAndUpdate. rewrite !map_map.
  split; [|split; [|split]];
    try (apply map_ext; intros p; now destruct (String.eqb (Picture._id p) id)).
  intros q Hq. rewrite in_map_iff. split.
  - intros [p [Hp Hin]]. destruct (String.eqb (Picture._id p) id) eqn:E.
    + apply String.eqb_eq in E. subst q. simpl in Hq. contradiction.
    + now subst q.
  - intros Hin. exists q. split; [|assumption].
    apply String.eqb_neq in Hq. now rewrite Hq.
Qed.

(** X9. Whatever the request, [updatePicture] leaves the categories alone,
    keeps the number and order of the pictures with their ids, category ids
    and dates, and does not touch a picture with another id. *)
Theorem updatePicture_frame (env : Env) (id : string) (image : option File)
  (matches : option string) (st : State) :
  let st' := fst (updatePicture env id image matches st) in
  categories st' = categories st /\
  map Picture._id (pictures st') = map Picture._id (pictures st) /\
  map Picture.categoryId (pictures st') = map Picture.categoryId (pictures st) /\
  map Picture.dateAdded (pictures st') = map Picture.dateAdded (pictures st) /\
  (forall q, Picture._id q <> id -> (In q (pictures st') <-> In q (pictures st))).
Proof.
  assert (Hsame : categories st = categories st /\
            map Picture._id (pictures st) = map Picture._id (pictures st) /\
            map Picture.categoryId (pictures st) = map Picture.categoryId (pictures st) /\
            map Picture.dateAdded (pictures st) = map Picture.dateAdded (pictures st) /\
            (forall q, Picture._id q <> id -> (In q (pictures st) <-> In q (pictures st))))
    by (repeat split; auto).
  unfold updatePicture.
  destruct (parseMatches_field matches) as [e|matchArray]; [exact Hsame|].
  destruct (falsy matches); [exact Hsame|].
  destruct image as [img|].
  - destruct (targetFilenameOf img) as [e|name]; [exact Hsame|].
    destruct (settle env id (Pictures.findById id (pictures st))) as [d|e];
      cbn [fst categories pictures]; [|exact Hsame].
    split; [reflexivity|]. apply findByIdAndUpdate_frame.
  - destruct (settle env id (Pictures.findById id (pictures st))) as [d|e];
      cbn [fst categories pictures]; [|exact Hsame].
    split; [reflexivity|]. apply findByIdAndUpdate_frame.
Qed.

(** X10. [updatePicture] without an image on an id that no picture has
    stores nothing.  When the id casts, nothing is reported as missing: the
    answer is status 200 with a null body.  When it does not cast, the store
    rejects the update and the answer is status 500 with the body
    "Update failed!". *)
Theorem updatePicture_unknown_id (env : Env) (id m : string) (st : State) :
  m <> EmptyString ->
  (forall p, In p (pictures st) -> Picture._id p <> id) ->
  updatePicture env id None (Some m) st
  = (st, Responded (if casts env id then ok (PictureBody None)
                    else mkResponse 500 (ErrorBody "Update failed!"))).
Proof.
  intros Hm Hnone. unfold updatePicture. cbn [parseMatches_field ret].
  assert (falsy (Some m) = false) as -> by (destruct m; [contradiction|reflexivity]).
  rewrite (findByIdAndUpdate_unknown _ _ _ Hnone).
  apply Pictures_findById_None in Hnone. rewrite Hnone. unfold settle.
  destruct (casts env id); [now destruct st|reflexivity].
Qed.

Lemma updatePicture_unknown_id_witness :
  updatePicture env1 "5f00000000000000000000bb" None (Some "dog") store1
  = (store1, Responded (ok (PictureBody None))) /\
  updatePicture env1 "p9" None (Some "dog") store1
  = (store1, Responded (mkResponse 500 (ErrorBody "Update failed!"))).
Proof.
  split.
  - apply (updatePicture_unknown_id env1 "5f00000000000000000000bb" "dog" store1);
      [discriminate|].
    intros p H. simpl in H. destruct H as [<-|[<-|[<-|[]]]]; discriminate.
  - apply (updatePicture_unknown_id env1 "p9" "dog" store1); [discriminate|].
    intros p H. simpl in H. destruct H as [<-|[<-|[<-|[]]]]; discriminate.
Defined.

(** X11. [updatePicture] with a new image that renames: the picture gets
    the parsed tags and the URL of the renamed file, which is on disk; the
    answer is status 200.  The file of the previous image is not removed:
    every file but the staged one is still there. *)
Theorem updatePicture_new_image (env : Env) (id m : string) (img : File)
  (p : Picture.t) (st : State) :
  m <> EmptyString ->
  occurrences "." (originalname img) <> O ->
  In (uploadDir env ++ filename img) (files st) ->
  Pictures.findById id (pictures st) = Some p ->
  exists ext,
    getExtension (originalname img) = inr ext /\
    let url := "/uploads/" ++ filename img ++ "." ++ toLowerCase ext in
    let r := updatePicture env id (Some img) (Some m) st in
    snd r = Responded (ok (MessageBody "Successfully updated!")) /\
    Pictures.findById id (pictures (fst r))
    = Some (Picture.mk (Picture._id p) (Picture.categoryId p) (parseMatches m) url
              (Picture.dateAdded p)) /\
    In (getLocalPath env url) (files (fst r)) /\
    (forall f, In f (files st) -> f <> uploadDir env ++ filename img ->
               In f (files (fst r))) /\
    (In (getLocalPath env (Picture.imageUrl p)) (files st) ->
     getLocalPath env (Picture.imageUrl p) <> uploadDir env ++ filename img ->
     In (getLocalPath env (Picture.imageUrl p)) (files (fst r))).
Proof.
  intros Hm Hdot Hstaged Hfind.
  destruct (targetFilenameOf_dot img Hdot) as [ext [Hext Hname]].
  exists ext. split; [exact Hext|]. cbv zeta.
  unfold updatePicture. cbn [parseMatches_field ret].
  assert (falsy (Some m) = false) as -> by (destruct m; [contradiction|reflexivity]).
  rewrite Hname, Hfind, settle_found.
  unfold fsRenameLocal. rewrite (rename_success _ _ _ Hstaged).
  cbn [fst snd pictures files].
  rewrite findById_findByIdAndUpdate, Hfind.
  change ("/uploads/" ++ filename img ++ "." ++ toLowerCase ext)
    with ("/uploads/" ++ (filename img ++ String "." (toLowerCase ext))).
  rewrite getLocalPath_upload.
  split; [reflexivity|]. split; [reflexivity|]. split; [now left|].
  assert (Hkeep : forall newPath f, In f (files st) ->
            f <> uploadDir env ++ filename img ->
            In f (newPath :: removeFile newPath
                    (removeFile (uploadDir env ++ filename img) (files st)))).
  { intros newPath f H1 H2. apply In_renamed. right. tauto. }
  split; [apply Hkeep|]. apply Hkeep.
Qed.

Lemma updatePicture_new_image_witness :
  snd (updatePicture env1 "p1" (Some uploadJpg) (Some "Puppy") store1)
  = Responded (ok (MessageBody "Successfully updated!")) /\
  In "/srv/app/public/uploads/b1.jpg"
    (files (fst (updatePicture env1 "p1" (Some uploadJpg) (Some "Puppy") store1))).
Proof.
  destruct (updatePicture_new_image env1 "p1" "Puppy" uploadJpg dog store1)
    as [ext [_ [H1 [_ [_ [_ H5]]]]]].
  - discriminate.
  - discriminate.
  - simpl. tauto.
  - reflexivity.
  - split; [exact H1|]. apply H5; [simpl; tauto|discriminate].
Defined.

(** X12. [updatePicture] with a new image whose staged file is not on disk:
    the rename fails and the answer is status 500, but the update of the
    record was issued together with the rename and is stored all the same.
    The picture then carries the new tags and a URL under which, unless a
    file of that name was already there, nothing exists. *)
Theorem updatePicture_failed_rename (env : Env) (id m : string) (img : File)
  (p : Picture.t) (st : State) :
  m <> EmptyString ->
  occurrences "." (originalname img) <> O ->
  ~ In (uploadDir env ++ filename img) (files st) ->
  Pictures.findById id (pictures st) = Some p ->
  exists ext,
    getExtension (originalname img) = inr ext /\
    let url := "/uploads/" ++ filename img ++ "." ++ toLowerCase ext in
    let r := updatePicture env id (Some img) (Some m) st in
    snd r = Responded (mkResponse 500
              (ErrorBody (message (ENOENT (uploadDir env ++ filename img))))) /\
    files (fst r) = files st /\
    Pictures.findById id (pictures (fst r))
    = Some (Picture.mk (Picture._id p) (Picture.categoryId p) (parseMatches m) url
              (Picture.dateAdded p)) /\
    (In (getLocalPath env url) (files (fst r)) <-> In (getLocalPath env url) (files st)).
Proof.
  intros Hm Hdot Hstaged Hfind.
  destruct (targetFilenameOf_dot img Hdot) as [ext [Hext Hname]].
  exists ext. split; [exact Hext|]. cbv zeta.
  unfold updatePicture. cbn [parseMatches_field ret].
  assert (falsy (Some m) = false) as -> by (destruct m; [contradiction|reflexivity]).
  rewrite Hname, Hfind, settle_found.
  unfold fsRenameLocal. rewrite (rename_failure _ _ _ Hstaged).
  cbn [fst snd pictures files].
  rewrite findById_findByIdAndUpdate, Hfind.
  split; [reflexivity|]. split; [reflexivity|]. split; [reflexivity|]. tauto.
Qed.

Lemma updatePicture_failed_rename_witness :
  status
    match snd (updatePicture env1 "p1" (Some (mkFile "0000" "x.PNG")) (Some "Puppy") store1) with
    | Responded r => r
    | _ => ok (Text "")
    end = 500 /\
  option_map Picture.imageUrl
    (Pictures.findById "p1"
       (pictures (fst (updatePicture env1 "p1" (Some (mkFile "0000" "x.PNG"))
                         (Some "Puppy") store1))))
  = Some "/uploads/0000.png".
Proof.
  destruct (updatePicture_failed_rename env1 "p1" "Puppy" (mkFile "0000" "x.PNG") dog store1)
    as [ext [Hext [H1 [_ [H3 _]]]]].
  - discriminate.
  - discriminate.
  - simpl. intros H. repeat (destruct H as [H|H]; [discriminate|]). exact H.
  - reflexivity.
  - injection Hext as <-. rewrite H1, H3. split; reflexivity.
Defined.

(** ** The delete routes *)

(** The joined unlinks of the pictures all pass exactly when the files are
    on disk and no two pictures share one. *)
Lemma removePictures_no_error (env : Env) (found ps : list Picture.t) (fs : list string) :
  snd (removePictures env found ps fs) = None <->
  NoDup (map (fun q => getLocalPath env (Picture.imageUrl q)) found) /\
  incl (map (fun q => getLocalPath env (Picture.imageUrl q)) found) fs.
Proof.
  revert ps fs. induction found as [|picture found IH]; intros ps fs; simpl.
  - split; [intros _; split; [constructor|apply incl_nil_l]|reflexivity].
  - unfold fsRemove, unlink.
    set (path := getLocalPath env (Picture.imageUrl picture)).
    set (rest := map (fun q => getLocalPath env (Picture.imageUrl q)) found) in *.
    destruct (existsFile path fs) eqn:E.
    + specialize (IH (Pictures.remove (Picture._id picture) ps) (removeFile path fs)).
      destruct (removePictures env found (Pictures.remove (Picture._id picture) ps)
                  (removeFile path fs)) as [[ps2 fs2] e2].
      simpl in *. rewrite IH. apply existsFile_In in E. split.
      * intros [Hnd Hincl]. split.
        -- constructor; [|assumption]. intros Hin. apply Hincl in Hin.
           apply In_removeFile in Hin. tauto.
        -- intros f [<-|Hf]; [assumption|]. apply Hincl in Hf.
           now apply In_removeFile in Hf.
      * intros [Hnd Hincl]. inversion Hnd as [|? ? Hnotin Hnd']; subst. split.
        -- assumption.
        -- intros f Hf. apply In_removeFile. split.
           ++ apply Hincl. now right.
           ++ intros ->. contradiction.
    + destruct (removePictures env found (Pictures.remove (Picture._id picture) ps) fs)
        as [[ps2 fs2] e2].
      simpl. split; [discriminate|]. intros [_ Hincl]. exfalso.
      assert (In path fs) as Hin by (apply Hincl; now left).
      apply existsFile_In in Hin. congruence.
Qed.

Lemma NoDup_snoc (x : string) (l : list string) :
  NoDup (l ++ [x]) <-> NoDup l /\ ~ In x l.
Proof.
  split.
  - intros H. apply NoDup_rev in H. rewrite rev_app_distr in H. simpl in H.
    inversion H as [|? ? Hnotin Hnd]; subst. split.
    + apply NoDup_rev in Hnd. now rewrite rev_involutive in Hnd.
    + intros Hin. apply Hnotin. now apply in_rev in Hin.
  - intros [Hnd Hnotin]. apply NoDup_app; [assumption|repeat constructor; auto|].
    intros a Ha [<-|[]]. contradiction.
Qed.

Lemma lookupError_None (env : Env) (id : string) (found : option Category.t) :
  lookupError env id found = None <-> found <> None \/ casts env id = true.
Proof.
  unfold lookupError, settle. destruct found as [c|].
  - split; [intros _; left; discriminate|reflexivity].
  - destruct (casts env id); split; try reflexivity; try discriminate.
    + intros _. now right.
    + intros [H|H]; [contradiction|discriminate].
Qed.

(** X13. [deleteCategory] answers 200 exactly when the store answers the
    lookup of the category (the id is that of a category, or at least
    casts), every file the route unlinks is on disk and no two of the
    records it removes share a file; otherwise it answers with
    [handleError], status 500. *)
Theorem deleteCategory_response (env : Env) (id : string) (st : State) :
  (snd (deleteCategory env id st) = Responded (ok (MessageBody "Success!")) <->
   (Categories.findById id (categories st) <> None \/ casts env id = true) /\
   NoDup (unlinkedPaths env id st) /\ incl (unlinkedPaths env id st) (files st)) /\
  (snd (deleteCategory env id st) = Responded (ok (MessageBody "Success!")) \/
   exists err, snd (deleteCategory env id st) = Responded (handleError err)).
Proof.
  unfold deleteCategory, unlinkedPaths.
  rewrite <- lookupError_None.
  pose proof (removePictures_no_error env (Pictures.findByCategory id (pictures st))
                (pictures st) (files st)) as He.
  pose proof (removePictures_spec env (Pictures.findByCategory id (pictures st))
                (pictures st) (files st)) as [_ Hf].
  set (paths := map (fun q => getLocalPath env (Picture.imageUrl q))
                  (Pictures.findByCategory id (pictures st))) in *.
  destruct (removePictures env (Pictures.findByCategory id (pictures st))
              (pictures st) (files st)) as [[ps fs1] e1].
  simpl in He, Hf.
  destruct (lookupError env id (Categories.findById id (categories st))) as [e0|].
  - split.
    + split; [|intros [H _]; discriminate].
      destruct (removeCategory env _ (categories st) fs1) as [[cs fs2] e2].
      simpl. discriminate.
    + right. exists e0.
      destruct (removeCategory env _ (categories st) fs1) as [[cs fs2] e2].
      reflexivity.
  - destruct (Categories.findById id (categories st)) as [category|]; simpl.
    + unfold fsRemove.
      pose proof (unlink_ok (getLocalPath env (Category.imageUrl category)) fs1) as Hu.
      destruct (unlink (getLocalPath env (Category.imageUrl category)) fs1) as [fs2 e2].
      simpl in *. split.
      * rewrite NoDup_snoc. split.
        -- intros H. destruct e1 as [err|]; [discriminate|].
           destruct e2 as [err|]; [discriminate|].
           destruct He as [He _]. destruct (He eq_refl) as [Hnd Hincl].
           assert (In (getLocalPath env (Category.imageUrl category)) fs1) as Hin
               by now apply Hu.
           apply Hf in Hin as [Hin Hnotin].
           split; [reflexivity|]. split; [split; assumption|].
           apply incl_app; [assumption|]. intros f [<-|[]]. assumption.
        -- intros [_ [[Hnd Hnotin] Hincl]].
           assert (e1 = None) as ->.
           { apply He. split; [assumption|]. intros f Hin. apply Hincl.
             apply in_or_app. now left. }
           assert (e2 = None) as ->.
           { apply Hu, Hf. split; [|assumption]. apply Hincl, in_or_app. right. now left. }
           reflexivity.
      * destruct e1 as [err|]; [right; now exists err|].
        destruct e2 as [err|]; [right; now exists err|now left].
    + rewrite app_nil_r. split.
      * split.
        -- intros H. destruct e1 as [err|]; [discriminate|].
           split; [reflexivity|]. now apply He.
        -- intros [_ H]. apply He in H. now rewrite H.
      * destruct e1 as [err|]; [right; now exists err|now left].
Qed.


(** When no record carries the id, [deleteCategory] finds nothing to do;
    its answer is that of the lookup of the category. *)
Lemma deleteCategory_nothing_found (env : Env) (id : string) (st : State) :
  (forall c, In c (categories st) -> Category._id c <> id) ->
  (forall p, In p (pictures st) -> Picture.categoryId p <> id) ->
  deleteCategory env id st
  = (st, Responded (if casts env id then ok (MessageBody "Success!")
                    else handleError (CastError id))).
Proof.
  intros Hc Hp. unfold deleteCategory.
  assert (Pictures.findByCategory id (pictures st) = []) as ->.
  { apply filter_none. intros p Hin. apply String.eqb_neq. now apply Hp. }
  apply Categories_findById_None in Hc. rewrite Hc.
  unfold lookupError, settle. simpl.
  destruct (casts env id); now destruct st.
Qed.

(** X14. [deleteCategory] on an id that no category has and no picture
    refers to changes nothing; it answers 200 when the id casts and 500, with
    the error of the rejected lookup, when it does not.  So deleting a
    category a second time changes nothing more, whatever the first call
    answered. *)
Theorem deleteCategory_idempotent (env : Env) (id : string) (st : State) :
  let st1 := fst (deleteCategory env id st) in
  deleteCategory env id st1
  = (st1, Responded (if casts env id then ok (MessageBody "Success!")
                     else handleError (CastError id))) /\
  ((forall c, In c (categories st) -> Category._id c <> id) ->
   (forall p, In p (pictures st) -> Picture.categoryId p <> id) ->
   deleteCategory env id st
   = (st, Responded (if casts env id then ok (MessageBody "Success!")
                     else handleError (CastError id)))).
Proof.
  split; [|apply deleteCategory_nothing_found].
  apply deleteCategory_nothing_found.
  - unfold deleteCategory.
    destruct (removePictures env _ (pictures st) (files st)) as [[ps fs1] e1].
    pose proof (removeCategory_spec env id (categories st) fs1) as [Hc _].
    destruct (removeCategory env _ (categories st) fs1) as [[cs fs2] e2].
    simpl in *. intros c Hin. now apply Hc in Hin.
  - unfold deleteCategory.
    pose proof (removePictures_spec env (Pictures.findByCategory id (pictures st))
                  (pictures st) (files st)) as [Hp _].
    destruct (removePictures env _ (pictures st) (files st)) as [[ps fs1] e1].
    destruct (removeCategory env _ (categories st) fs1) as [[cs fs2] e2].
    simpl in *. intros p Hin Hcat. apply Hp in Hin as [Hin Hnot].
    apply Hnot, in_map. now apply In_findByCategory.
Qed.

Lemma deleteCategory_idempotent_witness :
  deleteCategory env1 "c9" store1
  = (store1, Responded (handleError (CastError "c9"))) /\
  deleteCategory env1 "5f00000000000000000000bb" store1
  = (store1, Responded (ok (MessageBody "Success!"))).
Proof.
  split.
  - apply (deleteCategory_idempotent env1 "c9" store1).
    + intros c H. simpl in H. destruct H as [<-|[<-|[]]]; discriminate.
    + intros p H. simpl in H. destruct H as [<-|[<-|[<-|[]]]]; discriminate.
  - apply (deleteCategory_idempotent env1 "5f00000000000000000000bb" store1).
    + intros c H. simpl in H. destruct H as [<-|[<-|[]]]; discriminate.
    + intros p H. simpl in H. destruct H as [<-|[<-|[<-|[]]]]; discriminate.
Defined.

(** X15. The route that deletes a picture never touches the disk or the
    categories.  On an id that no picture has it changes nothing and answers
    200 when the id casts, 500 through [handleError] when the store rejects
    the removal because it does not; so deleting a picture a second time
    changes nothing more. *)
Theorem deletePicture_idempotent (env : Env) (id : string) (st : State) :
  let st1 := fst (deletePictureRoute env id st) in
  files st1 = files st /\
  categories st1 = categories st /\
  deletePictureRoute env id st1
  = (st1, Responded (if casts env id then ok (MessageBody "success")
                     else handleError (CastError id))) /\
  ((forall p, In p (pictures st) -> Picture._id p <> id) ->
   deletePictureRoute env id st
   = (st, Responded (if casts env id then ok (MessageBody "success")
                     else handleError (CastError id)))).
Proof.
  assert (Hno : forall s, (forall p, In p (pictures s) -> Picture._id p <> id) ->
                          deletePictureRoute env id s
                          = (s, Responded (if casts env id then ok (MessageBody "success")
                                           else handleError (CastError id)))).
  { intros s H. unfold deletePictureRoute.
    pose proof H as H'. apply Pictures_findById_None in H'. rewrite H'.
    unfold settle. destruct (casts env id); [|reflexivity].
    unfold deletePicture, Pictures.findByIdAndRemove, Pictures.remove.
    rewrite filter_all; [now destruct s|].
    intros p Hin. apply negb_true_iff, String.eqb_neq. now apply H. }
  assert (Hst : fst (deletePictureRoute env id st) = st \/
                fst (deletePictureRoute env id st) = fst (deletePicture id st)).
  { unfold deletePictureRoute.
    destruct (settle env id (Pictures.findById id (pictures st))); [now right|now left]. }
  cbv zeta. split; [|split; [|split; [|apply Hno]]].
  - destruct Hst as [->| ->]; reflexivity.
  - destruct Hst as [->| ->]; reflexivity.
  - apply Hno. unfold deletePictureRoute.
    destruct (Pictures.findById id (pictures st)) as [q|] eqn:E.
    + rewrite settle_found. simpl. intros p Hin. now apply In_Pictures_remove in Hin.
    + pose proof (proj1 (Pictures_findById_None _ _) E) as E'. unfold settle.
      destruct (casts env id); simpl; [|exact E'].
      intros p Hin. now apply In_Pictures_remove in Hin.
Qed.

Lemma deletePicture_idempotent_witness :
  deletePictureRoute env1 "p9" store1
  = (store1, Responded (handleError (CastError "p9"))) /\
  deletePictureRoute env1 "5f00000000000000000000bb" store1
  = (store1, Responded (ok (MessageBody "success"))).
Proof.
  split.
  - apply (deletePicture_idempotent env1 "p9" store1).
    intros p H. simpl in H. destruct H as [<-|[<-|[<-|[]]]]; discriminate.
  - apply (deletePicture_idempotent env1 "5f00000000000000000000bb" store1).
    intros p H. simpl in H. destruct H as [<-|[<-|[<-|[]]]]; discriminate.
Defined.

(** ** Invariants of the stores *)

(** The outcomes of [createCategory]: nothing changed, or the staged file
    was renamed and the category saved. *)
Lemma createCategory_cases (env : Env) (image : option File) (title : option string)
  (st : State) :
  fst (createCategory env image title st) = st \/
  exists img name,
    image = Some img /\
    In (uploadDir env ++ filename img) (files st) /\
    fst (createCategory env image title st)
    = mkState
        (Categories.save env
           (Category.mk (newId env) title ("/uploads/" ++ name) (now env))
           (categories st))
        (pictures st)
        ((uploadDir env ++ name)
           :: removeFile (uploadDir env ++ name)
                (removeFile (uploadDir env ++ filename img) (files st))).
Proof.
  unfold createCategory. destruct image as [img|]; [|now left].
  cbn [fileOf bind ret].
  destruct (targetFilenameOf img) as [e|name]; [now left|]. cbn [bind ret].
  unfold rename.
  destruct (existsFile (uploadDir env ++ filename img) (files st)) eqn:E; [|now left].
  right. exists img, name. apply existsFile_In in E. repeat split; assumption.
Qed.

Lemma createPicture_cases (env : Env) (image : option File)
  (matches categoryId : option string) (st : State) :
  fst (createPicture env image matches categoryId st) = st \/
  exists img name cid tags,
    image = Some img /\
    In (uploadDir env ++ filename img) (files st) /\
    fst (createPicture env image matches categoryId st)
    = mkState (categories st)
        (Pictures.save env
           (Picture.mk (newId env) cid tags ("/uploads/" ++ name) (now env))
           (pictures st))
        ((uploadDir env ++ name)
           :: removeFile (uploadDir env ++ name)
                (removeFile (uploadDir env ++ filename img) (files st))).
Proof.
  unfold createPicture.
  destruct (parseMatches_field matches) as [e|tags]; [now left|].
  destruct image as [img|]; [|now left].
  destruct (falsy matches); [now left|].
  destruct (findCategoryById env categoryId (categories st)) as [[c|]|e];
    [|now left|now left].
  destruct (targetFilenameOf img) as [e|name]; [now left|].
  unfold fsRenameLocal, rename.
  destruct (existsFile (uploadDir env ++ filename img) (files st)) eqn:E; [|now left].
  right. exists img, name, (match categoryId with Some id => id | None => EmptyString end), tags.
  apply existsFile_In in E. repeat split; assumption.
Qed.

(** The outcomes of [updatePicture]: nothing changed, or the record was
    patched, or only the rename was done; the disk is what the rename, if
    any, left. *)
Lemma updatePicture_cases (env : Env) (id : string) (image : option File)
  (matches : option string) (st : State) :
  fst (updatePicture env id image matches st) = st \/
  (exists tags,
     image = None /\
     fst (updatePicture env id image matches st)
     = mkState (categories st)
         (Pictures.findByIdAndUpdate id (Pictures.mkPatch (Some tags) None) (pictures st))
         (files st)) \/
  (exists tags img name,
     image = Some img /\
     fst (updatePicture env id image matches st)
     = mkState (categories st)
         (Pictures.findByIdAndUpdate id
            (Pictures.mkPatch (Some tags) (Some ("/uploads/" ++ name))) (pictures st))
         (fst (rename (uploadDir env ++ filename img) (uploadDir env ++ name) (files st)))) \/
  (exists img name,
     image = Some img /\
     fst (updatePicture env id image matches st)
     = mkState (categories st) (pictures st)
         (fst (rename (uploadDir env ++ filename img) (uploadDir env ++ name) (files st)))).
Proof.
  unfold updatePicture.
  destruct (parseMatches_field matches) as [e|tags]; [now left|].
  destruct (falsy matches); [now left|].
  destruct image as [img|].
  - destruct (targetFilenameOf img) as [e|name]; [now left|].
    destruct (settle env id (Pictures.findById id (pictures st))) as [d|e].
    + right. right. left. exists tags, img, name. split; reflexivity.
    + right. right. right. exists img, name. split; reflexivity.
  - destruct (settle env id (Pictures.findById id (pictures st))) as [d|e];
      [|now left].
    right. left. exists tags. split; reflexivity.
Qed.

Lemma NoDup_map_filter_categories (f : Category.t -> bool) (l : list Category.t) :
  NoDup (map Category._id l) -> NoDup (map Category._id (filter f l)).
Proof.
  induction l as [|c l IH]; simpl; [constructor|].
  intros H. inversion H as [|? ? Hnotin Hnodup]; subst.
  destruct (f c); simpl; [|now apply IH].
  constructor; [|now apply IH].
  intros Hin. apply Hnotin. apply in_map_iff in Hin as [q [Hq Hin]].
  apply filter_In in Hin as [Hin _]. apply in_map_iff. now exists q.
Qed.

Lemma removePictures_keeps_unique (env : Env) (found ps : list Picture.t)
  (fs : list string) :
  NoDup (map Picture._id ps) ->
  NoDup (map Picture._id (fst (fst (removePictures env found ps fs)))).
Proof.
  revert ps fs. induction found as [|picture found IH]; intros ps fs H; simpl;
    [assumption|].
  destruct (fsRemove (getLocalPath env (Picture.imageUrl picture)) fs) as [fs1 e1].
  specialize (IH (Pictures.remove (Picture._id picture) ps) fs1
                (NoDup_map_filter _ _ H)).
  destruct (removePictures env found (Pictures.remove (Picture._id picture) ps) fs1)
    as [[ps2 fs2] e2].
  exact IH.
Qed.

Lemma NoDup_snoc_ids (x : string) (l : list string) :
  NoDup l -> ~ In x l -> NoDup (l ++ [x]).
Proof. intros H1 H2. now apply NoDup_snoc. Qed.

(** X16. The routes keep the ids of each collection unique: update and
    the two deletes always, the two creates when the generated id is not
    yet in the collection. *)
Theorem uniqueIds_preserved (env : Env) (st : State) :
  uniqueIds st ->
  (forall id image matches, uniqueIds (fst (updatePicture env id image matches st))) /\
  (forall id, uniqueIds (fst (deletePicture id st))) /\
  (forall id, uniqueIds (fst (deleteCategory env id st))) /\
  (forall image title,
      ~ In (newId env) (map Category._id (categories st)) ->
      uniqueIds (fst (createCategory env image title st))) /\
  (forall image matches categoryId,
      ~ In (newId env) (map Picture._id (pictures st)) ->
      uniqueIds (fst (createPicture env image matches categoryId st))).
Proof.
  intros [Hc Hp]. split; [|split; [|split; [|split]]].
  - intros id image matches.
    destruct (updatePicture_cases env id image matches st)
      as [->|[[tags [_ ->]]|[[tags [img [name [_ ->]]]]|[img [name [_ ->]]]]]];
      [now split| | |now split];
      (split; [exact Hc|]); cbn [pictures];
      now rewrite (proj1 (findByIdAndUpdate_frame _ _ _)).
  - intros id. split; [exact Hc|]. simpl. now apply NoDup_map_filter.
  - intros id. unfold deleteCategory.
    pose proof (removePictures_keeps_unique env (Pictures.findByCategory id (pictures st))
                  (pictures st) (files st) Hp) as Hps.
    destruct (removePictures env _ (pictures st) (files st)) as [[ps fs1] e1].
    unfold removeCategory.
    destruct (Categories.findById id (categories st)) as [category|].
    + destruct (fsRemove _ fs1) as [fs2 e2]. split; [|exact Hps].
      simpl. now apply NoDup_map_filter_categories.
    + split; [exact Hc|exact Hps].
  - intros image title Hnew.
    destruct (createCategory_cases env image title st)
      as [->|[img [name [_ [_ ->]]]]]; [now split|].
    split; [|exact Hp]. cbn [categories]. unfold Categories.save.
    destruct (saveFails env); [exact Hc|].
    rewrite map_app. now apply NoDup_snoc_ids.
  - intros image matches categoryId Hnew.
    destruct (createPicture_cases env image matches categoryId st)
      as [->|[img [name [cid [tags [_ [_ ->]]]]]]]; [now split|].
    split; [exact Hc|]. cbn [pictures]. unfold Pictures.save.
    destruct (saveFails env); [exact Hp|].
    rewrite map_app. now apply NoDup_snoc_ids.
Qed.

Lemma store1_uniqueIds : uniqueIds store1.
Proof.
  split; simpl.
  - repeat constructor; simpl; intros H;
      repeat (destruct H as [H|H]; [discriminate|]); exact H.
  - repeat constructor; simpl; intros H;
      repeat (destruct H as [H|H]; [discriminate|]); exact H.
Qed.

Lemma uniqueIds_preserved_witness :
  uniqueIds (fst (deleteCategory env1 "c1" store1)) /\
  uniqueIds (fst (createPicture env1 (Some uploadJpg) (Some "dog") (Some "c1") store1)).
Proof.
  destruct (uniqueIds_preserved env1 store1 store1_uniqueIds) as [_ [_ [H3 [_ H5]]]].
  split; [apply H3|]. apply H5. simpl.
  intros H. repeat (destruct H as [H|H]; [discriminate|]). exact H.
Defined.

Lemma In_findByIdAndUpdate_url (id : string) (tags : list string) (l : list Picture.t)
  (q : Picture.t) :
  In q (Pictures.findByIdAndUpdate id (Pictures.mkPatch (Some tags) None) l) ->
  exists p, In p l /\ Picture.imageUrl q = Picture.imageUrl p.
Proof.
  unfold Pictures.findByIdAndUpdate. intros H.
  apply in_map_iff in H as [p [Hq Hp]]. exists p. split; [assumption|].
  subst q. now destruct (String.eqb (Picture._id p) id).
Qed.

Lemma In_findByIdAndUpdate_new_url (id : string) (tags : list string) (url : string)
  (l : list Picture.t) (q : Picture.t) :
  In q (Pictures.findByIdAndUpdate id (Pictures.mkPatch (Some tags) (Some url)) l) ->
  Picture.imageUrl q = url \/ exists p, In p l /\ Picture.imageUrl q = Picture.imageUrl p.
Proof.
  unfold Pictures.findByIdAndUpdate. intros H.
  apply in_map_iff in H as [p [Hq Hp]]. subst q.
  destruct (String.eqb (Picture._id p) id); [now left|right; now exists p].
Qed.

(** The disk after a rename from a path no record points to still holds
    every file a record points to. *)
Lemma renamed_keeps_blobs (env : Env) (staged newPath : string) (st : State) :
  blobsPresent env st ->
  unreferenced env staged st ->
  let fs := newPath :: removeFile newPath (removeFile staged (files st)) in
  (forall c, In c (categories st) -> In (getLocalPath env (Category.imageUrl c)) fs) /\
  (forall p, In p (pictures st) -> In (getLocalPath env (Picture.imageUrl p)) fs).
Proof.
  intros [Bc Bp] [Uc Up]. split.
  - intros c Hc. apply In_renamed. right. split; [now apply Bc|now apply Uc].
  - intros p Hp. apply In_renamed. right. split; [now apply Bp|now apply Up].
Qed.

(** X17. If every record points to a file that exists, this is still so
    after [deletePicture], after an update without a new image, and, when no
    record points to the path of the staged upload, after either create and
    after an update whose rename passes. *)
Theorem blobsPresent_preserved (env : Env) (st : State) :
  blobsPresent env st ->
  (forall id, blobsPresent env (fst (deletePicture id st))) /\
  (forall id matches, blobsPresent env (fst (updatePicture env id None matches st))) /\
  (forall img title matches categoryId id,
      unreferenced env (uploadDir env ++ filename img) st ->
      blobsPresent env (fst (createCategory env (Some img) title st)) /\
      blobsPresent env (fst (createPicture env (Some img) matches categoryId st)) /\
      (In (uploadDir env ++ filename img) (files st) ->
       blobsPresent env (fst (updatePicture env id (Some img) matches st)))).
Proof.
  intros B. pose proof B as [Bc Bp]. split; [|split].
  - intros id. split; [exact Bc|]. simpl. intros p Hp.
    apply In_Pictures_remove in Hp as [Hp _]. now apply Bp.
  - intros id matches.
    destruct (updatePicture_cases env id None matches st)
      as [->|[[tags [_ ->]]|[[tags [img [name [H _]]]]|[img [name [H _]]]]]];
      [exact B| |discriminate|discriminate].
    split; [exact Bc|]. cbn [pictures files]. intros q Hq.
    apply In_findByIdAndUpdate_url in Hq as [p [Hp ->]]. now apply Bp.
  - intros img title matches categoryId id U. split; [|split].
    + destruct (createCategory_cases env (Some img) title st)
        as [->|[img' [name [[= <-] [_ ->]]]]]; [exact B|].
      destruct (renamed_keeps_blobs env _ (uploadDir env ++ name) st B U) as [Rc Rp].
      split; [|exact Rp]. cbn [categories files]. unfold Categories.save.
      destruct (saveFails env); [exact Rc|].
      intros c Hc. apply in_app_or in Hc as [Hc|[<-|[]]]; [now apply Rc|].
      cbn [Category.imageUrl]. rewrite getLocalPath_upload. now left.
    + destruct (createPicture_cases env (Some img) matches categoryId st)
        as [->|[img' [name [cid [tags [[= <-] [_ ->]]]]]]]; [exact B|].
      destruct (renamed_keeps_blobs env _ (uploadDir env ++ name) st B U) as [Rc Rp].
      split; [exact Rc|]. cbn [pictures files]. unfold Pictures.save.
      destruct (saveFails env); [exact Rp|].
      intros p Hp. apply in_app_or in Hp as [Hp|[<-|[]]]; [now apply Rp|].
      cbn [Picture.imageUrl]. rewrite getLocalPath_upload. now left.
    + intros Hstaged.
      destruct (updatePicture_cases env id (Some img) matches st)
        as [->|[[tags [H _]]|[[tags [img' [name [[= <-] ->]]]]
                             |[img' [name [[= <-] ->]]]]]];
        [exact B|discriminate| |].
      * rewrite (rename_success _ _ _ Hstaged). cbn [fst].
        destruct (renamed_keeps_blobs env _ (uploadDir env ++ name) st B U) as [Rc Rp].
        split; [exact Rc|]. cbn [pictures files]. intros q Hq.
        apply In_findByIdAndUpdate_new_url in Hq as [->|[p [Hp ->]]]; [|now apply Rp].
        rewrite getLocalPath_upload. now left.
      * rewrite (rename_success _ _ _ Hstaged). cbn [fst].
        destruct (renamed_keeps_blobs env _ (uploadDir env ++ name) st B U) as [Rc Rp].
        split; [exact Rc|exact Rp].
Qed.

Lemma store1_blobsPresent : blobsPresent env1 store1.
Proof.
  split.
  - intros c H. simpl in H. destruct H as [<-|[<-|[]]]; simpl; tauto.
  - intros p H. simpl in H. destruct H as [<-|[<-|[<-|[]]]]; simpl; tauto.
Qed.

Lemma store1_staged_unreferenced :
  unreferenced env1 (uploadDir env1 ++ filename uploadJpg) store1.
Proof.
  split.
  - intros c H. simpl in H. destruct H as [<-|[<-|[]]]; discriminate.
  - intros p H. simpl in H. destruct H as [<-|[<-|[<-|[]]]]; discriminate.
Qed.

Lemma blobsPresent_preserved_witness :
  blobsPresent env1
    (fst (createPicture env1 (Some uploadJpg) (Some "dog") (Some "c1") store1)) /\
  blobsPresent env1
    (fst (updatePicture env1 "p1" (Some uploadJpg) (Some "dog") store1)).
Proof.
  destruct (blobsPresent_preserved env1 store1 store1_blobsPresent) as [_ [_ H]].
  destruct (H uploadJpg None (Some "dog") (Some "c1") "p1" store1_staged_unreferenced)
    as [_ [H2 H3]].
  split; [exact H2|]. apply H3. simpl. tauto.
Defined.

Lemma NoDup_map_eq {A B : Type} (f : A -> B) (l : list A) (a b : A) :
  NoDup (map f l) -> In a l -> In b l -> f a = f b -> a = b.
Proof.
  induction l as [|x l IH]; simpl; [contradiction|].
  intros H Ha Hb E. inversion H as [|? ? Hnotin Hnd]; subst.
  destruct Ha as [->|Ha], Hb as [->|Hb].
  - reflexivity.
  - exfalso. apply Hnotin. rewrite E. now apply in_map.
  - exfalso. apply Hnotin. rewrite <- E. now apply in_map.
  - now apply IH.
Qed.


(** X18. When no two records share a file, the cascade removes only files
    of records it removes: if every record pointed to an existing file
    before [deleteCategory], every remaining record still does. *)
Theorem deleteCategory_keeps_other_blobs (env : Env) (id : string) (st : State) :
  blobsPresent env st ->
  blobsDistinct env st ->
  blobsPresent env (fst (deleteCategory env id st)).
Proof.
  intros [Bc Bp] D. unfold blobsDistinct in D.
  pose proof (NoDup_app_remove_r _ _ D) as Dc.
  pose proof (NoDup_app_remove_l _ _ D) as Dp.
  unfold deleteCategory.
  pose proof (removePictures_spec env (Pictures.findByCategory id (pictures st))
                (pictures st) (files st)) as [Hp Hf].
  destruct (removePictures env (Pictures.findByCategory id (pictures st))
              (pictures st) (files st)) as [[ps fs1] e1].
  pose proof (removeCategory_spec env id (categories st) fs1) as [Hc Hg].
  destruct (removeCategory env (Categories.findById id (categories st))
              (categories st) fs1) as [[cs fs2] e2].
  simpl in *.
  assert (Hfound : forall q, In q (Pictures.findByCategory id (pictures st)) ->
                             In q (pictures st) /\ Picture.categoryId q = id)
    by (intros q; apply In_findByCategory).
  split; cbn [categories pictures files].
  - intros c Hin. apply Hc in Hin as [Hin Hid].
    apply Hg. split; [apply Hf; split; [now apply Bc|]|].
    + intros Hq. apply in_map_iff in Hq as [q [Hq Hqin]].
      apply Hfound in Hqin as [Hqin _].
      apply (NoDup_app_disjoint _ _ (getLocalPath env (Category.imageUrl c)) D).
      * now apply (in_map (fun c => getLocalPath env (Category.imageUrl c))).
      * rewrite <- Hq.
        now apply (in_map (fun p => getLocalPath env (Picture.imageUrl p))).
    + intros c0 Hfind E. apply Categories_findById_Some in Hfind as [Hin0 Hid0].
      apply Hid. rewrite <- Hid0. f_equal.
      now apply (NoDup_map_eq _ _ _ _ Dc Hin Hin0).
  - intros p Hin. apply Hp in Hin as [Hin Hnot].
    apply Hg. split; [apply Hf; split; [now apply Bp|]|].
    + intros Hq. apply in_map_iff in Hq as [q [Hq Hqin]].
      pose proof Hqin as Hqin'. apply Hfound in Hqin' as [Hqin' _].
      apply Hnot. apply in_map_iff. exists q. split; [|assumption].
      f_equal. symmetry. now apply (NoDup_map_eq _ _ _ _ Dp Hin Hqin').
    + intros c0 Hfind E. apply Categories_findById_Some in Hfind as [Hin0 _].
      apply (NoDup_app_disjoint _ _ (getLocalPath env (Picture.imageUrl p)) D).
      * rewrite E.
        now apply (in_map (fun c => getLocalPath env (Category.imageUrl c))).
      * now apply (in_map (fun p => getLocalPath env (Picture.imageUrl p))).
Qed.

Lemma store1_blobsDistinct : blobsDistinct env1 store1.
Proof.
  unfold blobsDistinct. simpl.
  repeat constructor; simpl; intros H;
    repeat (destruct H as [H|H]; [discriminate|]); exact H.
Qed.

Lemma deleteCategory_keeps_other_blobs_witness :
  blobsPresent env1 (fst (deleteCategory env1 "c1" store1)).
Proof.
  apply deleteCategory_keeps_other_blobs;
    [exact store1_blobsPresent|exact store1_blobsDistinct].
Defined.

(** X19. A picture that is created and then deleted leaves its file behind:
    after [createPicture] and [deletePicture] of the new id the collections
    are as before the create, and the renamed upload is still on disk. *)
Theorem createPicture_then_deletePicture (env : Env) (img : File) (m cid : string)
  (category : Category.t) (st : State) :
  saveFails env = false ->
  m <> EmptyString ->
  Categories.findById cid (categories st) = Some category ->
  occurrences "." (originalname img) <> O ->
  In (uploadDir env ++ filename img) (files st) ->
  (forall p, In p (pictures st) -> Picture._id p <> newId env) ->
  let st1 := fst (createPicture env (Some img) (Some m) (Some cid) st) in
  let st2 := fst (deletePicture (newId env) st1) in
  pictures st2 = pictures st /\
  categories st2 = categories st /\
  files st2 = files st1 /\
  exists ext,
    getExtension (originalname img) = inr ext /\
    In (uploadDir env ++ filename img ++ "." ++ toLowerCase ext) (files st2).
Proof.
  intros Hsave Hm Hcat Hdot Hstaged Hfresh.
  destruct (targetFilenameOf_dot img Hdot) as [ext [Hext Hname]].
  cbv zeta. unfold createPicture. cbn [parseMatches_field ret findCategoryById findCategory].
  assert (falsy (Some m) = false) as -> by (destruct m; [contradiction|reflexivity]).
  rewrite Hcat, settle_found, Hname. unfold fsRenameLocal.
  rewrite (rename_success _ _ _ Hstaged).
  unfold Pictures.save. rewrite Hsave.
  cbn [fst deletePicture categories pictures files].
  split; [|split; [reflexivity|split; [reflexivity|]]].
  - unfold Pictures.findByIdAndRemove, Pictures.remove.
    rewrite filter_app. cbn [filter Picture._id]. rewrite String.eqb_refl.
    cbn [negb]. rewrite app_nil_r. apply filter_all.
    intros p Hp. apply negb_true_iff, String.eqb_neq. now apply Hfresh.
  - exists ext. split; [exact Hext|]. now left.
Qed.

Lemma createPicture_then_deletePicture_witness :
  pictures
    (fst (deletePicture (newId env1)
            (fst (createPicture env1 (Some uploadJpg) (Some "dog") (Some "c1") store1))))
  = pictures store1 /\
  In "/srv/app/public/uploads/7c9e.jpg"
    (files
       (fst (deletePicture (newId env1)
               (fst (createPicture env1 (Some uploadJpg) (Some "dog") (Some "c1") store1))))).
Proof.
  destruct (createPicture_then_deletePicture env1 uploadJpg "dog" "c1" animals store1)
    as [H1 [_ [_ [ext [Hext H2]]]]].
  - reflexivity.
  - discriminate.
  - reflexivity.
  - discriminate.
  - simpl. tauto.
  - intros p H. simpl in H. destruct H as [<-|[<-|[<-|[]]]]; discriminate.
  - split; [exact H1|]. injection Hext as <-. exact H2.
Defined.

(** ** More on the sampling route *)

(** A batch, when the route answers one, is the fresh documents followed by
    the backfill, and neither sample size was negative. *)
Lemma sampleBatch_ok_inv (rnd : Random) (categoryId : string) (limit : Z) (st : State)
  (batch : list Picture.t) :
  sampleBatch rnd categoryId limit st = ok (PicturesBody batch) ->
  let d := getRandomInt rnd 1 (limit # 2) in
  let latest := chooseLatest rnd (Z.to_nat d) (latestWindow categoryId st) in
  let rc := limit - Z.of_nat (List.length latest) in
  0 <= d /\ 0 <= rc /\
  batch = (latest ++
           filter (fun p => negb (memId (Picture._id p) (map Picture._id latest)))
             (chooseRest rnd (Z.to_nat rc) (olderItems categoryId st)))%list.
Proof.
  rewrite sampleBatch_unfold. cbv zeta.
  destruct (getRandomInt rnd 1 (limit # 2) <? 0) eqn:Ed; [discriminate|].
  destruct (limit - Z.of_nat _ <? 0) eqn:Erc; [discriminate|].
  intros [= <-]. apply Z.ltb_ge in Ed, Erc. repeat split; assumption.
Qed.

(** X20. Whatever the limit, a batch that the route answers consists of
    fresh documents, taken from the 50 most recent of the category and at
    most max(1, floor(limit/2)) of them, followed by backfill documents,
    taken from the older ones and none of them with the id of a fresh
    document; the batch is no larger than the limit. *)
Theorem sampleBatch_fresh_and_backfill (rnd : Random) (categoryId : string) (limit : Z)
  (st : State) (batch : list Picture.t) :
  getRandomInt_range (getRandomInt rnd) ->
  sample_choice (chooseLatest rnd) ->
  sample_choice (chooseRest rnd) ->
  sampleBatch rnd categoryId limit st = ok (PicturesBody batch) ->
  exists fresh backfill,
    batch = (fresh ++ backfill)%list /\
    incl fresh (latestWindow categoryId st) /\
    incl backfill (olderItems categoryId st) /\
    Z.of_nat (List.length fresh) <= Z.max 1 (limit / 2) /\
    Z.of_nat (List.length batch) <= limit /\
    (forall p, In p backfill -> ~ In (Picture._id p) (map Picture._id fresh)).
Proof.
  intros Hrange Hlatest Hrest Hok.
  apply sampleBatch_ok_inv in Hok. cbv zeta in Hok. destruct Hok as [Hd [Hrc ->]].
  pose proof (getRandomInt_range_bounds rnd limit Hrange) as Hb.
  set (d := getRandomInt rnd 1 (limit # 2)) in *.
  destruct (Hlatest (Z.to_nat d) (latestWindow categoryId st)) as [Hin1 Hlen1].
  set (latest := chooseLatest rnd (Z.to_nat d) (latestWindow categoryId st)) in *.
  set (rc := limit - Z.of_nat (List.length latest)) in *.
  destruct (Hrest (Z.to_nat rc) (olderItems categoryId st)) as [Hin2 Hlen2].
  set (chosen := chooseRest rnd (Z.to_nat rc) (olderItems categoryId st)) in *.
  pose proof (filter_length_le
                (fun p => negb (memId (Picture._id p) (map Picture._id latest))) chosen)
    as Hlen3.
  eexists latest, _. split; [reflexivity|]. split; [exact Hin1|]. split; [|split; [|split]].
  - eapply incl_tran; [apply incl_filter|exact Hin2].
  - lia.
  - rewrite length_app. lia.
  - intros p Hp Hid. apply filter_In in Hp as [_ Hp].
    apply negb_true_iff in Hp. apply memId_In in Hid. congruence.
Qed.

Lemma sampleBatch_fresh_and_backfill_witness :
  exists fresh backfill,
    [cat] = (fresh ++ backfill)%list /\ incl fresh (latestWindow "c1" store1).
Proof.
  destruct (sampleBatch_fresh_and_backfill rndFirst "c1" 3 store1 [cat]
              rndFirst_range firstn_choice firstn_choice eq_refl)
    as [fresh [backfill [H1 [H2 _]]]].
  exists fresh, backfill. split; assumption.
Defined.

(** X21. The route never answers with a picture of another category, or
    with a picture that is not in the collection. *)
Theorem sampleBatch_same_category (rnd : Random) (categoryId : string) (limit : Z)
  (st : State) (batch : list Picture.t) :
  sample_choice (chooseLatest rnd) ->
  sample_choice (chooseRest rnd) ->
  sampleBatch rnd categoryId limit st = ok (PicturesBody batch) ->
  forall p, In p batch -> In p (pictures st) /\ Picture.categoryId p = categoryId.
Proof.
  intros Hlatest Hrest Hok p Hp.
  apply sampleBatch_ok_inv in Hok. cbv zeta in Hok. destruct Hok as [_ [_ ->]].
  assert (In p (population categoryId st)) as Hpop.
  { apply in_app_or in Hp as [Hp|Hp].
    - apply latestWindow_incl. eapply (proj1 (Hlatest _ _)). exact Hp.
    - apply filter_In in Hp as [Hp _].
      apply olderItems_incl. eapply (proj1 (Hrest _ _)). exact Hp. }
  unfold population in Hpop. apply filter_In in Hpop as [H1 H2].
  split; [assumption|now apply String.eqb_eq].
Qed.

Lemma sampleBatch_same_category_witness :
  In cat (pictures store1) /\ Picture.categoryId cat = "c1".
Proof.
  apply (sampleBatch_same_category rndFirst "c1" 3 store1 [cat]
           firstn_choice firstn_choice eq_refl).
  now left.
Defined.

Lemma insertByDate_descending (p : Picture.t) (l : list Picture.t) :
  descending l -> descending (insertByDate p l).
Proof.
  induction l as [|q l IH]; simpl; [intros _; split; [intros ? []|exact I]|].
  intros [Hq Hl]. destruct (Picture.dateAdded q <=? Picture.dateAdded p) eqn:E.
  - apply Z.leb_le in E. split; [|split; assumption].
    intros x [<-|Hx]; [assumption|]. specialize (Hq x Hx). lia.
  - apply Z.leb_gt in E. split; [|now apply IH].
    intros x Hx. apply (Permutation_in _ (insertByDate_perm p l)) in Hx.
    destruct Hx as [<-|Hx]; [lia|now apply Hq].
Qed.

Lemma sortByDateDesc_descending (l : list Picture.t) : descending (sortByDateDesc l).
Proof.
  induction l as [|p l IH]; simpl; [exact I|now apply insertByDate_descending].
Qed.

Lemma descending_firstn_skipn (n : nat) (l : list Picture.t) (p q : Picture.t) :
  descending l -> In p (firstn n l) -> In q (skipn n l) ->
  Picture.dateAdded q <= Picture.dateAdded p.
Proof.
  revert l. induction n as [|n IH]; intros l Hd Hp Hq; [destruct Hp|].
  destruct l as [|x l]; [destruct Hp|].
  simpl in Hp, Hq. destruct Hd as [Hx Hl].
  destruct Hp as [<-|Hp].
  - apply Hx. rewrite <- (firstn_skipn n l). apply in_or_app. now right.
  - now apply (IH l).
Qed.

(** X22. The two queries split the pictures of the category by recency:
    the window of the first query and the rest sampled by the second are
    together the population, the window has at most 50 pictures, and every
    picture in the window is at least as recent as every picture outside
    it. *)
Theorem window_is_most_recent (categoryId : string) (st : State) :
  Permutation (latestWindow categoryId st ++ olderItems categoryId st)
    (population categoryId st) /\
  (List.length (latestWindow categoryId st) <= 50)%nat /\
  forall p q, In p (latestWindow categoryId st) -> In q (olderItems categoryId st) ->
              Picture.dateAdded q <= Picture.dateAdded p.
Proof.
  unfold latestWindow, olderItems. split; [|split].
  - rewrite firstn_skipn. apply sortByDateDesc_perm.
  - apply firstn_le_length.
  - intros p q. apply descending_firstn_skipn, sortByDateDesc_descending.
Qed.

Lemma sampleBatch_distinct_witness :
  exists batch,
    sampleBatch rndFirst "c1" 3 store1 = ok (PicturesBody batch) /\
    NoDup (map Picture._id batch).
Proof.
  apply (sampleBatch_distinct rndFirst "c1" 3 store1 rndFirst_range firstn_choice).
  - intros n docs H. rewrite <- (firstn_skipn n docs), map_app in H.
    now apply NoDup_app_remove_r in H.
  - intros n docs H. rewrite <- (firstn_skipn n docs), map_app in H.
    now apply NoDup_app_remove_r in H.
  - apply store1_uniqueIds.
  - lia.
Defined.

(** X24. For a category without pictures and a limit of 0 or more the
    route answers the empty batch with status 200. *)
Theorem sampleBatch_empty_population (rnd : Random) (categoryId : string) (limit : Z)
  (st : State) :
  getRandomInt_range (getRandomInt rnd) ->
  sample_choice (chooseLatest rnd) ->
  sample_choice (chooseRest rnd) ->
  population categoryId st = [] ->
  0 <= limit ->
  sampleBatch rnd categoryId limit st = ok (PicturesBody []).
Proof.
  intros Hrange Hlatest Hrest Hempty Hlimit.
  rewrite sampleBatch_unfold. cbv zeta.
  pose proof (getRandomInt_range_bounds rnd limit Hrange) as Hb.
  unfold latestWindow, olderItems. rewrite Hempty. cbn [sortByDateDesc fold_right].
  rewrite firstn_nil, skipn_nil.
  rewrite !(sample_choice_nil _ _ Hlatest), !(sample_choice_nil _ _ Hrest).
  destruct (_ <? 0) eqn:Ed; [apply Z.ltb_lt in Ed; lia|].
  cbn [List.length Z.of_nat]. rewrite Z.sub_0_r.
  destruct (limit <? 0) eqn:El; [apply Z.ltb_lt in El; lia|reflexivity].
Qed.

Lemma sampleBatch_empty_population_witness :
  sampleBatch rndFirst "c9" 10 store1 = ok (PicturesBody []).
Proof.
  apply sampleBatch_empty_population;
    [exact rndFirst_range|exact firstn_choice|exact firstn_choice|reflexivity|lia].
Defined.


(** X25. With ids unique and a [$sample] that returns as many documents as
    asked for whenever there are that many, a limit of at least 1 is met
    exactly as soon as the category has [limit] pictures beyond its 50 most
    recent: the batch has [limit] pictures. *)
Theorem sampleBatch_exact_size (rnd : Random) (categoryId : string) (limit : Z)
  (st : State) :
  getRandomInt_range (getRandomInt rnd) ->
  sample_choice (chooseLatest rnd) ->
  sample_choice (chooseRest rnd) ->
  sample_full (chooseRest rnd) ->
  NoDup (map Picture._id (pictures st)) ->
  1 <= limit ->
  limit <= Z.of_nat (List.length (olderItems categoryId st)) ->
  exists batch,
    sampleBatch rnd categoryId limit st = ok (PicturesBody batch) /\
    Z.of_nat (List.length batch) = limit.
Proof.
  intros Hrange Hlatest Hrest Hfull Hids Hlimit Hmany.
  rewrite sampleBatch_unfold. cbv zeta.
  pose proof (getRandomInt_range_bounds rnd limit Hrange) as Hd.
  pose proof (half_le limit Hlimit) as Hhalf.
  pose proof (population_unique categoryId st Hids) as Hu. rewrite map_app in Hu.
  set (d := getRandomInt rnd 1 (limit # 2)) in *.
  destruct (Hlatest (Z.to_nat d) (latestWindow categoryId st)) as [Hin1 Hlen1].
  set (latest := chooseLatest rnd (Z.to_nat d) (latestWindow categoryId st)) in *.
  destruct (d <? 0) eqn:Ed; [apply Z.ltb_lt in Ed; lia|].
  set (rc := limit - Z.of_nat (List.length latest)) in *.
  destruct (rc <? 0) eqn:Erc; [apply Z.ltb_lt in Erc; lia|].
  destruct (Hrest (Z.to_nat rc) (olderItems categoryId st)) as [Hin2 _].
  specialize (Hfull (Z.to_nat rc) (olderItems categoryId st)).
  set (chosen := chooseRest rnd (Z.to_nat rc) (olderItems categoryId st)) in *.
  eexists. split; [reflexivity|].
  rewrite length_app, filter_all.
  - rewrite Hfull. lia.
  - intros p Hp. apply negb_true_iff.
    destruct (memId (Picture._id p) (map Picture._id latest)) eqn:E; [|reflexivity].
    exfalso. apply memId_In in E.
    apply (NoDup_app_disjoint _ _ (Picture._id p) Hu).
    + apply in_map_iff in E as [q [Hq Hqin]]. rewrite <- Hq.
      apply in_map. now apply Hin1.
    + apply in_map. now apply Hin2.
Qed.

(** X26. With a first [$sample] that returns a document whenever it is
    asked for one and there is one, every batch for a limit of at least 1 on
    a category with pictures holds one of its 50 most recent pictures. *)
Theorem sampleBatch_has_fresh (rnd : Random) (categoryId : string) (limit : Z)
  (st : State) :
  getRandomInt_range (getRandomInt rnd) ->
  sample_choice (chooseLatest rnd) ->
  sample_full (chooseLatest rnd) ->
  1 <= limit ->
  population categoryId st <> [] ->
  exists batch p,
    sampleBatch rnd categoryId limit st = ok (PicturesBody batch) /\
    In p batch /\ In p (latestWindow categoryId st).
Proof.
  intros Hrange Hlatest Hfull Hlimit Hpop.
  rewrite sampleBatch_unfold. cbv zeta.
  pose proof (getRandomInt_range_bounds rnd limit Hrange) as Hd.
  pose proof (half_le limit Hlimit) as Hhalf.
  set (d := getRandomInt rnd 1 (limit # 2)) in *.
  destruct (Hlatest (Z.to_nat d) (latestWindow categoryId st)) as [Hin1 Hlen1].
  specialize (Hfull (Z.to_nat d) (latestWindow categoryId st)).
  set (latest := chooseLatest rnd (Z.to_nat d) (latestWindow categoryId st)) in *.
  destruct (d <? 0) eqn:Ed; [apply Z.ltb_lt in Ed; lia|].
  destruct (limit - Z.of_nat (List.length latest) <? 0) eqn:Erc;
    [apply Z.ltb_lt in Erc; lia|].
  assert (latestWindow categoryId st <> []) as Hwin.
  { pose proof (sortByDateDesc_perm (population categoryId st)) as P.
    unfold latestWindow, latestItemsLimit.
    destruct (sortByDateDesc (population categoryId st)) as [|x sorted].
    - exfalso. apply Hpop. now apply Permutation_nil.
    - discriminate. }
  destruct latest as [|p latest'] eqn:El.
  - exfalso. simpl in Hfull.
    destruct (latestWindow categoryId st); [contradiction|]. simpl in Hfull. lia.
  - eexists _, p. split; [reflexivity|]. split; [now left|].
    apply Hin1. now left.
Qed.

Lemma distinctStrings_NoDup (l : list string) : distinctStrings l = true -> NoDup l.
Proof.
  induction l as [|x l IH]; simpl; [constructor|].
  intros H. apply andb_true_iff in H as [H1 H2]. constructor; [|now apply IH].
  intros Hin. apply negb_true_iff in H1.
  assert (existsb (String.eqb x) l = true) as E; [|congruence].
  apply existsb_exists. exists x. split; [assumption|apply String.eqb_refl].
Qed.


Lemma archive_unique : NoDup (map Picture._id (pictures archive)).
Proof. apply distinctStrings_NoDup. vm_compute. reflexivity. Qed.

Lemma sampleBatch_exact_size_witness :
  exists batch,
    sampleBatch rndFirst "c1" 6 archive = ok (PicturesBody batch) /\
    Z.of_nat (List.length batch) = 6.
Proof.
  apply (sampleBatch_exact_size rndFirst "c1" 6 archive rndFirst_range
           firstn_choice firstn_choice firstn_full archive_unique).
  - lia.
  - apply Z.leb_le. vm_compute. reflexivity.
Defined.

Lemma sampleBatch_has_fresh_witness :
  exists batch p,
    sampleBatch rndFirst "c1" 3 store1 = ok (PicturesBody batch) /\
    In p batch /\ In p (latestWindow "c1" store1).
Proof.
  apply (sampleBatch_has_fresh rndFirst "c1" 3 store1 rndFirst_range
           firstn_choice firstn_full).
  - lia.
  - discriminate.
Defined.

(** X27. For every limit of at least 1 the route answers with status 200
    and a batch of at most [limit] pictures, all of the category asked
    for. *)
Theorem sampleBatch_positive_limit (rnd : Random) (categoryId : string) (limit : Z)
  (st : State) :
  getRandomInt_range (getRandomInt rnd) ->
  sample_choice (chooseLatest rnd) ->
  sample_choice (chooseRest rnd) ->
  1 <= limit ->
  exists batch,
    sampleBatch rnd categoryId limit st = ok (PicturesBody batch) /\
    status (sampleBatch rnd categoryId limit st) = 200 /\
    Z.of_nat (List.length batch) <= limit /\
    forall p, In p batch -> Picture.categoryId p = categoryId.
Proof.
  intros Hrange Hlatest Hrest Hlimit.
  destruct (sampleBatch_subset_bounded rnd categoryId limit st Hrange Hlatest Hrest Hlimit)
    as [batch [H1 [H2 [H3 _]]]].
  exists batch. rewrite H1. split; [reflexivity|]. split; [reflexivity|].
  split; [exact H3|]. intros p Hp. apply H2 in Hp.
  unfold population in Hp. apply filter_In in Hp as [_ Hp]. now apply String.eqb_eq.
Qed.

Lemma sampleBatch_positive_limit_witness :
  exists batch,
    sampleBatch rndFirst "c1" 10 archive = ok (PicturesBody batch) /\
    Z.of_nat (List.length batch) <= 10.
Proof.
  destruct (sampleBatch_positive_limit rndFirst "c1" 10 archive rndFirst_range
              firstn_choice firstn_choice) as [batch [H1 [_ [H2 _]]]]; [lia|].
  exists batch. split; assumption.
Defined.
